(** * mercado-livre-finder: the search scraper of [server.js]

    A shallow embedding of the Express handler [GET /search] and of its two
    helpers [handlePopupsAndOverlays] and [waitForPageReady].

    - JavaScript strings are sequences of UTF-16 code units ([list N]).
    - JavaScript numbers are IEEE 754 binary64 values ([spec_float] with
      precision 53 and maximal exponent 1024).
    - The libraries the script drives (cheerio, puppeteer, the file system)
      are interfaces: every call may throw, and the browser calls thread an
      abstract world.  The script's own code is translated statement by
      statement over these interfaces.
    - Of the console output only the per-item lines of the parsing loop are
      kept: they are the skip reasons of the extraction pass.  The other
      [console.log] calls carry no data flow and are left out. *)

From Stdlib Require Import ZArith QArith String Ascii.
From Stdlib Require Import Floats.SpecFloat.
From stdpp Require Import base option list gmap strings.

Local Open Scope Z_scope.

(** ** Strings *)

Abbreviation jsstring := (list N).

(** A double-quoted piece of a source literal. *)
Definition quoted (s : string) : string :=
  String "034"%char s +:+ String "034"%char "".

(** A source literal (ASCII) as a sequence of code units. *)
Definition js (s : string) : jsstring :=
  map N_of_ascii (list_ascii_of_string s).

(** ECMAScript WhiteSpace and LineTerminator code units, the set that
    [String.prototype.trim] and [parseFloat] strip. *)
Definition isWhiteSpace (c : N) : bool :=
  bool_decide (c ∈ [9; 10; 11; 12; 13; 32; 160; 5760; 8232; 8233; 8239;
                    8287; 12288; 65279]%N)
  || ((8192 <=? c)%N && (c <=? 8202)%N).

Fixpoint trimStart (s : jsstring) : jsstring :=
  match s with
  | c :: s' => if isWhiteSpace c then trimStart s' else s
  | [] => []
  end.

Definition trimEnd (s : jsstring) : jsstring :=
  reverse (trimStart (reverse s)).

Definition trim (s : jsstring) : jsstring := trimEnd (trimStart s).

(** [s.replace(/c/g, '')] for a single literal character [c]. *)
Definition removeAll (c : N) (s : jsstring) : jsstring :=
  filter (λ x, x ≠ c) s.

Fixpoint startsWith (p s : jsstring) : bool :=
  match p, s with
  | [], _ => true
  | a :: p', b :: s' => bool_decide (a = b) && startsWith p' s'
  | _ :: _, [] => false
  end.

(** [s.includes(p)] *)
Fixpoint includes (p s : jsstring) : bool :=
  startsWith p s ||
  match s with
  | [] => false
  | _ :: s' => includes p s'
  end.

(** [s.substring(0, n)] *)
Definition substring0 (n : nat) (s : jsstring) : jsstring := take n s.

(** ** Numbers *)

Abbreviation number := spec_float.

Definition NaN : number := S754_nan.
Definition zero : number := S754_zero false.

(** The Number value of a non-negative rational: the quotient of its
    numerator and denominator in lowest terms, rounded once to the nearest
    binary64, ties to even.  (ECMAScript lets an engine approximate a
    literal beyond its 20th significant digit; this is the exact rounding,
    which V8 implements.) *)
Definition Number_of_Q (neg : bool) (q : Q) : number :=
  match Qnum (Qred q) with
  | Zpos n =>
      SFdiv 53 1024 (S754_finite neg n 0) (S754_finite false (Qden (Qred q)) 0)
  | _ => S754_zero neg
  end.

(** [x > 0] on numbers; false for NaN. *)
Definition gt_zero (x : number) : bool := SFltb zero x.

Definition isDigit (c : N) : bool := (48 <=? c)%N && (c <=? 57)%N.

(** The longest run of decimal digits at the head of [s], and the rest. *)
Fixpoint spanDigits (s : jsstring) : jsstring * jsstring :=
  match s with
  | c :: s' =>
      if isDigit c then let '(ds, r) := spanDigits s' in (c :: ds, r)
      else ([], s)
  | [] => ([], [])
  end.

(** The mathematical value of a run of decimal digits. *)
Definition digitsValue (ds : jsstring) : Z :=
  fold_left (λ acc c, 10 * acc + (Z.of_N c - 48)) ds 0.

(** ExponentPart, when the text starts with one; 0 otherwise. *)
Definition exponentPart (s : jsstring) : Z :=
  match s with
  | c :: s' =>
      if bool_decide (c = 101%N ∨ c = 69%N) then
        match s' with
        | 43%N :: s'' =>
            let '(ds, _) := spanDigits s'' in digitsValue ds
        | 45%N :: s'' =>
            let '(ds, _) := spanDigits s'' in - digitsValue ds
        | _ =>
            let '(ds, _) := spanDigits s' in digitsValue ds
        end
      else 0
  | [] => 0
  end.

(** The mathematical value of a decimal literal: [m * 10^(e - scale)]. *)
Definition decimalMV (m : Z) (scale : nat) (e : Z) : Q :=
  (inject_Z m * Qpower (10 # 1) (e - Z.of_nat scale))%Q.

(** The longest prefix of [s] that is a StrUnsignedDecimalLiteral, as a
    number of the given sign; NaN when there is none. *)
Definition strUnsignedDecimalLiteral (neg : bool) (s : jsstring) : number :=
  if startsWith (js "Infinity") s then S754_infinity neg
  else
    let '(ip, r1) := spanDigits s in
    match r1 with
    | 46%N :: r2 =>
        let '(fp, r3) := spanDigits r2 in
        match ip, fp with
        | [], [] => NaN
        | _, _ =>
            Number_of_Q neg
              (decimalMV (digitsValue (ip ++ fp)) (length fp) (exponentPart r3))
        end
    | _ =>
        match ip with
        | [] => NaN
        | _ => Number_of_Q neg (decimalMV (digitsValue ip) 0 (exponentPart r1))
        end
    end.

(** The global [parseFloat] on a string argument: leading white space is
    dropped, then an optional sign, then the longest numeric prefix. *)
Definition parseFloat (s : jsstring) : number :=
  match trimStart s with
  | c :: s' =>
      if bool_decide (c = 43%N) then strUnsignedDecimalLiteral false s'
      else if bool_decide (c = 45%N) then strUnsignedDecimalLiteral true s'
      else strUnsignedDecimalLiteral false (c :: s')
  | [] => NaN
  end.

(** ** Exceptions and truthiness *)

(** An [Error] object, of which the script reads only [message]. *)
Record js_error := JsError { message : jsstring }.

Inductive result (A : Type) : Type :=
| Ok (a : A)
| Throw (error : js_error).
Arguments Ok {A} a.
Arguments Throw {A} error.

#[global] Instance result_ret : MRet result := @Ok.
#[global] Instance result_bind : MBind result := λ A B f r,
  match r with
  | Ok a => f a
  | Throw error => Throw error
  end.
#[global] Instance result_fmap : FMap result := λ A B f r,
  match r with
  | Ok a => Ok (f a)
  | Throw error => Throw error
  end.

(** ToBoolean on the values the script tests: strings, and the
    string-or-undefined results of [attr]. *)
Class Truthy (A : Type) := truthy : A → bool.
#[global] Instance truthy_string : Truthy jsstring :=
  λ s, match s with [] => false | _ :: _ => true end.
#[global] Instance truthy_attr : Truthy (option jsstring) :=
  λ o, match o with Some s => truthy s | None => false end.

(** [a || b]: [b] is evaluated only when [a] is falsy. *)
Definition js_or {A} `{Truthy A} (a b : result A) : result A :=
  match a with
  | Ok x => if truthy x then Ok x else b
  | Throw error => Throw error
  end.
Infix "|||" := js_or (at level 50, left associativity).

(** ** State and exceptions

    [M St A] is a computation over a mutable state [St] that returns an [A] or
    throws; mutations made before a throw stay. *)
Definition M (St A : Type) : Type := St → result A * St.

#[global] Instance M_ret {St} : MRet (M St) := λ A a st, (Ok a, st).
#[global] Instance M_bind {St} : MBind (M St) := λ A B f c st,
  match c st with
  | (Ok a, st') => f a st'
  | (Throw error, st') => (Throw error, st')
  end.

Definition lift {St A} (r : result A) : M St A := λ st, (r, st).
Definition modify {St} (f : St → St) : M St () := λ st, (Ok (), f st).

(** [try { body } catch (error) { handler }] *)
Definition try_catch {St A} (body : M St A) (handler : js_error → M St A)
  : M St A := λ st,
  match body st with
  | (Ok a, st') => (Ok a, st')
  | (Throw error, st') => handler error st'
  end.

(** [try { body } finally { cleanup }] *)
Definition try_finally {St A} (body : M St A) (cleanup : M St ()) : M St A :=
  λ st,
  match body st with
  | (r, st') =>
      match cleanup st' with
      | (Ok _, st'') => (r, st'')
      | (Throw error, st'') => (Throw error, st'')
      end
  end.

(** ** The cheerio interface

    [sel] is the type of cheerio selections.  [elements s] lists the
    members of a selection in document order, each wrapped as a selection
    of its own ([$(element)]); [s.length] is [length (elements s)]. *)
Class Cheerio (sel : Type) := {
  load : jsstring → result sel;
  find : sel → string → result sel;
  elements : sel → list sel;
  first : sel → result sel;
  text : sel → result jsstring;
  attr : sel → string → result (option jsstring);
}.

(** ** The extraction pass (server.js, lines 226-296) *)

Record ProductRecord := {
  title : jsstring;
  price : number;
  permalink : option jsstring;
  thumbnail : option jsstring;
}.

(** The console lines of the parsing loop. *)
Inductive log_line :=
| SkippingSponsored (n : nat)
| ProductLine (n : nat) (title : jsstring) (price : number)
    (permalink : option jsstring)
| SkippingIncomplete (n : nat)
    (hasTitle hasPrice hasPermalink hasThumbnail : bool)
| ErrorParsing (n : nat) (msg : jsstring).

Record parse_state := {
  products : list ProductRecord;
  console : list log_line;
}.

Definition products_push (r : ProductRecord) : M parse_state () :=
  modify (λ st, {| products := products st ++ [r]; console := console st |}).

Definition console_log (l : log_line) : M parse_state () :=
  modify (λ st, {| products := products st; console := console st ++ [l] |}).

Definition origin : jsstring := js "https://www.mercadolivre.com.br".

(** Lines 258-261: make sure the link is absolute. *)
Definition normalize_permalink (permalink : option jsstring)
  : option jsstring :=
  match permalink with
  | Some p =>
      if truthy p && negb (startsWith (js "http") p)
      then Some (origin ++ p)
      else permalink
  | None => None
  end.

(** Lines 269-272. *)
Definition compose_price (priceFraction priceCents : jsstring) : number :=
  if truthy priceFraction
  then parseFloat (priceFraction ++ js "." ++ priceCents)
  else zero.

(** The values of the four locals when line 276 is reached. *)
Record fields := {
  f_title : jsstring;
  f_price : number;
  f_permalink : option jsstring;
  f_thumbnail : option jsstring;
}.

Section Extraction.
Context {sel : Type} `{Cheerio sel}.

(** Lines 241-245. *)
Definition title_of (productElement : sel) : result jsstring :=
  (trim <$> (find productElement "a.poly-component__title" ≫= text)) |||
  (trim <$> (find productElement ".poly-component__title-wrapper a" ≫= text)) |||
  (trim <$> (find productElement ".ui-search-item__title" ≫= text)) |||
  (trim <$> (find productElement "h3 a" ≫= text)) |||
  (trim <$> (find productElement "h2 a" ≫= text)).

(** The text of the first element a selector finds. *)
Definition first_text (productElement : sel) (selector : string)
  : result jsstring :=
  (find productElement selector ≫= first) ≫= text.

(** Line 249. *)
Definition priceFraction_of (productElement : sel) : result jsstring :=
  (λ t, removeAll 44%N (removeAll 46%N t)) <$>
    first_text productElement ".andes-money-amount__fraction".

(** Line 250. *)
Definition priceCents_of (productElement : sel) : result jsstring :=
  first_text productElement ".andes-money-amount__cents" ||| Ok (js "00").

(** Lines 253-261. *)
Definition permalink_of (productElement : sel)
  : result (option jsstring) :=
  normalize_permalink <$>
    ((find productElement "a.poly-component__title" ≫= λ s, attr s "href") |||
     (find productElement ".poly-component__title-wrapper a" ≫= λ s, attr s "href") |||
     (find productElement "a.ui-search-link" ≫= λ s, attr s "href") |||
     (find productElement ("a[href*=" +:+ quoted "/MLB" +:+ "]") ≫= λ s, attr s "href")).

(** Lines 264-267. *)
Definition thumbnail_of (productElement : sel)
  : result (option jsstring) :=
  (find productElement "img.ui-search-result-image__element" ≫= λ s, attr s "data-src") |||
  (find productElement "img.ui-search-result-image__element" ≫= λ s, attr s "src") |||
  (find productElement "img" ≫= λ s, attr s "data-src") |||
  (find productElement "img" ≫= λ s, attr s "src").

(** Lines 240-272: field resolution, statement by statement. *)
Definition resolve_fields (productElement : sel) : result fields :=
  title ← title_of productElement;
  priceFraction ← priceFraction_of productElement;
  priceCents ← priceCents_of productElement;
  permalink ← permalink_of productElement;
  thumbnail ← thumbnail_of productElement;
  let price := compose_price priceFraction priceCents in
  mret {| f_title := title; f_price := price;
          f_permalink := permalink; f_thumbnail := thumbnail |}.

(** Lines 275-291: only add products with all required fields. *)
Definition validate_and_push (index : nat) (f : fields)
  : M parse_state () :=
  if truthy (f_title f) && gt_zero (f_price f) &&
     truthy (f_permalink f) && truthy (f_thumbnail f)
  then
    products_push {| title := substring0 200 (f_title f);
                     price := f_price f;
                     permalink := f_permalink f;
                     thumbnail := f_thumbnail f |};;
    console_log (ProductLine (index + 1) (f_title f) (f_price f)
                   (f_permalink f))
  else
    console_log (SkippingIncomplete (index + 1)
                   (truthy (f_title f)) (gt_zero (f_price f))
                   (truthy (f_permalink f)) (truthy (f_thumbnail f))).

(** Lines 232-291: the body of the [try] block. *)
Definition item_body (index : nat) (productElement : sel)
  : M parse_state () :=
  ads ← lift (find productElement ".ui-search-item--ad");
  if bool_decide (0 < length (elements ads))%nat
  then console_log (SkippingSponsored (index + 1))
  else
    f ← lift (resolve_fields productElement);
    validate_and_push index f.

(** What a callback of [each] returns: [undefined], or [false] to stop. *)
Inductive each_return := ReturnUndefined | ReturnFalse.

(** Lines 230-295: the callback handed to [each]. *)
Definition item_callback (index : nat) (element : sel)
  : M parse_state each_return :=
  try_catch (item_body index element)
            (λ error, console_log (ErrorParsing (index + 1) (message error)));;
  mret ReturnUndefined.

(** cheerio's [each]: calls the callback on every member in order, with
    its index; stops early when the callback returns [false]; does not
    catch. *)
Fixpoint each_from {St} (fn : nat → sel → M St each_return)
    (index : nat) (els : list sel) : M St () :=
  match els with
  | [] => mret ()
  | el :: els' =>
      r ← fn index el;
      match r with
      | ReturnFalse => mret ()
      | ReturnUndefined => each_from fn (S index) els'
      end
  end.

Definition each {St} (s : sel) (fn : nat → sel → M St each_return)
  : M St () :=
  each_from fn 0%nat (elements s).

(** Lines 226-296 on a loaded document: [products] starts empty. *)
Definition parse_products (items : sel) : result () * parse_state :=
  each items item_callback {| products := []; console := [] |}.

End Extraction.

(** ** Built-ins the model takes as given *)
Class Builtins := {
  encodeURIComponent : jsstring → result jsstring;
  toLowerCase : jsstring → jsstring;
}.

(** ** The puppeteer interface

    [W] is the state of everything outside the script (the browser, the
    site, the clock, the disk), [H] the type of element handles.  The second
    group are the DOM calls made inside the page by the functions handed to
    [page.evaluate]. *)
Class Puppeteer (W H : Type) := {
  launch : M W ();
  newPage : M W ();
  setUserAgent : jsstring → M W ();
  setViewport : Z → Z → M W ();
  goto : jsstring → M W ();
  query : string → M W (option H);
  isVisible : H → M W bool;
  click : H → M W ();
  waitForSelector : string → Z → M W ();
  evaluate_call : M W ();
  content : M W jsstring;
  close : M W ();
  setTimeout : Z → W → W;
  writeFileSync : string → jsstring → M W ();

  querySelectorAll : string → W → list H;
  textContent : H → W → jsstring;
  offsetParent : H → W → option H;
  dom_click : H → W → W;
}.

(** The calls the script makes, in the order it makes them. *)
Inductive event :=
| Launch
| NewPage
| SetUserAgent (ua : jsstring)
| SetViewport (width height : Z)
| Goto (url : jsstring)
| Query (selector : string)
| IsVisible
| Click
| WaitForSelector (selector : string) (timeout : Z)
| Evaluate
| Content
| Close
| SetTimeout (ms : Z)
| WriteFileSync (name : string).

Inductive response_body :=
| ErrorBody (error : jsstring) (details : option jsstring)
| ProductsBody (products : list ProductRecord).

Record response := { status : Z; body : response_body }.

(** The state of one request: the outside world, the calls made so far, the
    responses sent so far, and whether the local [browser] is set. *)
Record request_state (W : Type) := {
  world : W;
  trace : list event;
  sent : list response;
  browser : bool;
}.
Arguments world {W} _.
Arguments trace {W} _.
Arguments sent {W} _.
Arguments browser {W} _.

Section Browser.
Context {W H : Type} `{Puppeteer W H} `{Builtins}.

Abbreviation B := (M (request_state W)).

(** Record the call, then make it on the world. *)
Definition perform {A} (ev : event) (op : M W A) : B A := λ st,
  let '(r, w) := op (world st) in
  (r, {| world := w; trace := trace st ++ [ev];
         sent := sent st; browser := browser st |}).

(** [await new Promise(resolve => setTimeout(resolve, ms))] *)
Definition sleep (ms : Z) : B () :=
  perform (SetTimeout ms) (λ w, (Ok (), setTimeout ms w)).

(** [await page.evaluate(fn)] for a function [fn] run inside the page. *)
Definition page_evaluate {A} (fn : W → A * W) : B A :=
  perform Evaluate (λ w,
    match evaluate_call w with
    | (Ok _, w') => let '(a, w'') := fn w' in (Ok a, w'')
    | (Throw error, w') => (Throw error, w')
    end).

Definition throw {A} (msg : string) : B A := lift (Throw (JsError (js msg))).

(** *** handlePopupsAndOverlays (lines 18-120) *)

Definition popupSelectors : list string := [
  "button[data-testid=" +:+ quoted "action:understood-button" +:+ "]";
  "button[data-testid=" +:+ quoted "cookie-consent-banner-opt-out" +:+ "]";
  ".cookie-consent-banner-opt-out";
  "button[data-testid=" +:+ quoted "modal-close-button" +:+ "]";
  ".andes-modal__close";
  "button[aria-label=" +:+ quoted "Cerrar" +:+ "]";
  "button[aria-label=" +:+ quoted "Close" +:+ "]";
  ".onboarding-cp-wrapper button";
  "button[data-testid=" +:+ quoted "onboarding-cp-understand" +:+ "]";
  "button[class*=" +:+ quoted "close" +:+ "]";
  "[data-testid*=" +:+ quoted "close" +:+ "]";
  ".ui-modal-close";
  "button[data-testid=" +:+ quoted "action:modal-close" +:+ "]";
  ".shipping-location button";
  "button:contains(" +:+ quoted "Entendi" +:+ ")";
  "button:contains(" +:+ quoted "OK" +:+ ")";
  "button:contains(" +:+ quoted "Fechar" +:+ ")";
  "button:contains(" +:+ quoted "Cerrar" +:+ ")";
  ".andes-modal-overlay";
  ".ui-modal-overlay"
].

(** Lines 61-82: one turn of the selector loop.  [popupsFound++] follows
    the last call of the [try] block that can throw, so the counter is
    the block's result. *)
Definition popup_by_selector (selector : string) (popupsFound : nat)
  : B nat :=
  try_catch
    (sleep 500;;
     element ← perform (Query selector) (query selector);
     match element with
     | Some el =>
         visible ← perform IsVisible (isVisible el);
         if visible : bool then
           perform Click (click el);;
           sleep 1000;;
           mret (popupsFound + 1)%nat
         else mret popupsFound
     | None => mret popupsFound
     end)
    (λ error, mret popupsFound).

Fixpoint popups_by_selector (selectors : list string) (popupsFound : nat)
  : B nat :=
  match selectors with
  | [] => mret popupsFound
  | selector :: rest =>
      n ← popup_by_selector selector popupsFound;
      popups_by_selector rest n
  end.

Definition textBasedSelectors : list (string * string) := [
  ("Entendi", "Understood button");
  ("OK", "OK button");
  ("Fechar", "Close button");
  ("Aceitar", "Accept button");
  ("Continuar", "Continue button")
].

(** Lines 97-107: the function run inside the page. *)
Definition click_button_with_text (buttonText : jsstring) (w : W)
  : bool * W :=
  let buttons := querySelectorAll "button" w in
  let button :=
    List.find
      (λ btn, includes (toLowerCase buttonText)
                (toLowerCase (trim (textContent btn w))))
      buttons in
  match button with
  | Some btn =>
      if offsetParent btn w is Some _
      then (true, dom_click btn w)
      else (false, w)
  | None => (false, w)
  end.

(** Lines 95-113; the value [page.evaluate] resolves to is dropped. *)
Fixpoint popups_by_text (entries : list (string * string)) : B () :=
  match entries with
  | [] => mret ()
  | (text, description) :: rest =>
      try_catch
        (page_evaluate (click_button_with_text (js text));;
         sleep 500)
        (λ error, mret ());;
      popups_by_text rest
  end.

Definition handlePopupsAndOverlays : B nat :=
  popupsFound ← popups_by_selector popupSelectors 0%nat;
  try_catch (popups_by_text textBasedSelectors) (λ error, mret ());;
  mret popupsFound.

(** *** waitForPageReady (lines 123-160) *)

Definition resultsContainerSelector : string := "ol.ui-search-layout".

(** Lines 127-156: one turn of the loop; [Some v] when the turn executes
    [return v], [None] when the loop goes on. *)
Definition probe_attempt (maxAttempts attempt : nat) : B (option bool) :=
  try_catch
    (perform (WaitForSelector resultsContainerSelector 30000)
       (waitForSelector resultsContainerSelector 30000);;
     perform (WaitForSelector ".ui-search-layout__item" 10000)
       (waitForSelector ".ui-search-layout__item" 10000);;
     hasProducts ← page_evaluate (λ w,
       let items := querySelectorAll ".ui-search-layout__item" w in
       (bool_decide (0 < length items)%nat, w));
     if hasProducts : bool then mret (Some true)
     else sleep 2000;; mret None)
    (λ error,
       if bool_decide (attempt < maxAttempts)%nat
       then sleep 3000;; mret None
       else mret None).

(** The [for] loop from [attempt] on, with [remaining] turns left:
    [remaining = maxAttempts + 1 - attempt]. *)
Fixpoint probe_from (maxAttempts attempt remaining : nat) : B bool :=
  match remaining with
  | O => throw "Failed to load search results after multiple attempts"
  | S remaining' =>
      r ← probe_attempt maxAttempts attempt;
      match r with
      | Some v => mret v
      | None => probe_from maxAttempts (S attempt) remaining'
      end
  end.

Definition waitForPageReady (maxAttempts : nat) : B bool :=
  probe_from maxAttempts 1 maxAttempts.

(** The default value of the parameter [maxAttempts]. *)
Definition default_maxAttempts : nat := 3.

End Browser.

(** ** The route [GET /search] (lines 164-329) *)

(** A value of [req.query]: a string, or what the query parser builds from
    repeated and bracketed keys. *)
Inductive query_value :=
| QString (s : jsstring)
| QArray (l : list jsstring)
| QObject.

#[global] Instance truthy_query : Truthy (option query_value) :=
  λ o, match o with
       | Some (QString s) => truthy s
       | Some (QArray _) | Some QObject => true
       | None => false
       end.

Fixpoint join (sep : jsstring) (l : list jsstring) : jsstring :=
  match l with
  | [] => []
  | [s] => s
  | s :: l' => s ++ sep ++ join sep l'
  end.

Definition ToString (v : option query_value) : jsstring :=
  match v with
  | Some (QString s) => s
  | Some (QArray l) => join (js ",") l
  | Some QObject => js "[object Object]"
  | None => js "undefined"
  end.

Definition userAgent : jsstring :=
  js "Mozilla/5.0 (Windows NT 10.0; Win64; x64) AppleWebKit/537.36 (KHTML, like Gecko) Chrome/91.0.4472.124 Safari/537.36".

Definition required_message : jsstring :=
  js ("Search query parameter " +:+ quoted "q" +:+ " is required.").

Definition internal_error_message : jsstring :=
  js "An internal server error occurred during scraping.".

Section Handler.
Context {W H sel : Type} `{Puppeteer W H} `{Builtins} `{Cheerio sel}.

(** [res.status(s).json(b)]; [res.json(b)] is [respond 200 b]. *)
Definition respond (s : Z) (b : response_body) : M (request_state W) () :=
  modify (λ st, {| world := world st; trace := trace st;
                   sent := sent st ++ [{| status := s; body := b |}];
                   browser := browser st |}).

(** The assignment to the local [browser] once [launch] has resolved. *)
Definition set_browser : M (request_state W) () :=
  modify (λ st, {| world := world st; trace := trace st;
                   sent := sent st; browser := true |}).

Definition not_production (env : gmap string jsstring) : bool :=
  negb (bool_decide (env !! "NODE_ENV" = Some (js "production"))).

(** Lines 177-211: launch, navigate, dismiss overlays twice. *)
Definition open_page (searchUrl : jsstring) : M (request_state W) () :=
  perform Launch launch;;
  set_browser;;
  perform NewPage newPage;;
  perform (SetUserAgent userAgent) (setUserAgent userAgent);;
  perform (SetViewport 1280 800) (setViewport 1280 800);;
  perform (Goto searchUrl) (goto searchUrl);;
  handlePopupsAndOverlays;;
  sleep 2000;;
  handlePopupsAndOverlays;;
  mret ().

(** Lines 216-312: snapshot, parse, respond. *)
Definition extract_and_respond (env : gmap string jsstring)
  : M (request_state W) () :=
  (if not_production env then sleep 3000 else mret ());;
  html ← perform Content content;
  doc ← lift (load html);
  items ← lift (find doc ".ui-search-layout__item");
  let '(r, parsed) := parse_products items in
  lift r;;
  if bool_decide (0 < length (products parsed))%nat
  then respond 200 (ProductsBody (products parsed))
  else
    (if not_production env
     then perform (WriteFileSync "debug_page.html")
            (writeFileSync "debug_page.html" html)
     else mret ());;
    respond 200 (ProductsBody []).

(** Lines 177-312: the [try] block. *)
Definition scrape (env : gmap string jsstring) (searchUrl : jsstring)
  : M (request_state W) () :=
  open_page searchUrl;;
  waitForPageReady default_maxAttempts;;
  extract_and_respond env.

(** Lines 314-321: the [catch] block. *)
Definition on_error (env : gmap string jsstring) (error : js_error)
  : M (request_state W) () :=
  respond 500
    (ErrorBody internal_error_message
       (Some (if bool_decide (env !! "NODE_ENV" = Some (js "development"))
              then message error
              else js "Check server logs"))).

(** Lines 322-328: the [finally] block. *)
Definition release : M (request_state W) () :=
  λ st, if browser st then perform Close close st else (Ok (), st).

Definition search_handler (env : gmap string jsstring)
    (req_query : gmap string query_value) : M (request_state W) () :=
  let searchQuery := req_query !! "q" in
  if negb (truthy searchQuery)
  then respond 400 (ErrorBody required_message None)
  else
    encoded ← lift (encodeURIComponent (ToString searchQuery));
    let searchUrl := js "https://lista.mercadolivre.com.br/" ++ encoded in
    try_finally (try_catch (scrape env searchUrl) (on_error env)) release.

(** A request starts with nothing recorded and [browser = null]. *)
Definition start (w : W) : request_state W :=
  {| world := w; trace := []; sent := []; browser := false |}.

End Handler.

(** ** Test doubles

    Small instances of the interfaces, on which the development is run. *)

(** A canned element: its text, its attributes, what [find] returns below
    it for each selector, and the selectors on which [find] throws. *)
#[local] Unset Elimination Schemes.
Inductive stub :=
  Stub (txt : jsstring) (attrs : list (string * jsstring))
       (below : list (string * list stub)) (broken : list string).
#[local] Set Elimination Schemes.

Definition stub_txt (e : stub) := let 'Stub t _ _ _ := e in t.
Definition stub_attrs (e : stub) := let 'Stub _ a _ _ := e in a.
Definition stub_below (e : stub) := let 'Stub _ _ b _ := e in b.
Definition stub_broken (e : stub) := let 'Stub _ _ _ k := e in k.

Definition assoc {A} (k : string) (l : list (string * A)) : option A :=
  snd <$> List.find (λ p, bool_decide (fst p = k)) l.

(** Selections are lists of canned elements; [load] returns the document
    the instance was built with. *)
Definition stub_cheerio (doc : list stub) : Cheerio (list stub) := {|
  load := λ _, Ok doc;
  find := λ s selector,
    if existsb (λ e, bool_decide (selector ∈ stub_broken e)) s
    then Throw (JsError (js "unsupported selector"))
    else Ok (concat (map (λ e, default [] (assoc selector (stub_below e))) s));
  elements := map (λ e, [e]);
  first := λ s, Ok (take 1 s);
  text := λ s, Ok (concat (map stub_txt s));
  attr := λ s name,
    Ok (match s with e :: _ => assoc name (stub_attrs e) | [] => None end);
|}.

(** Built-ins that agree with the real ones on the ASCII letters and digits
    and leave every other code unit as it is. *)
Definition ascii_builtins : Builtins := {|
  encodeURIComponent := Ok;
  toLowerCase := map (λ c, if (65 <=? c)%N && (c <=? 90)%N
                           then (c + 32)%N else c);
|}.

(** A scripted browser.  [overlays] are the elements [page.$] can find, by
    selector, with their visibility; [buttons] the page's buttons, by text,
    with their visibility; [script] says what each coming attempt of the
    readiness probe meets: whether the container shows up, whether an item
    shows up, and how many items the page then holds.  [clicked] collects
    what was clicked, [clock] the time slept. *)
Record toy := {
  overlays : list (string * bool);
  buttons : list (jsstring * bool);
  script : list (bool * bool * nat);
  current : bool * bool * nat;
  html : jsstring;
  clicked : list jsstring;
  clock : Z;
}.

Inductive toy_handle :=
| Overlay (selector : string)
| Button (i : nat)
| Item (i : nat).

Definition toy_timeout {A} (selector : string) (ms : Z) : result A :=
  Throw (JsError (js ("Waiting for selector `" +:+ selector +:+ "` failed"))).

Definition toy_puppeteer : Puppeteer toy toy_handle := {|
  launch := λ w, (Ok (), w);
  newPage := λ w, (Ok (), w);
  setUserAgent := λ _ w, (Ok (), w);
  setViewport := λ _ _ w, (Ok (), w);
  goto := λ _ w, (Ok (), w);
  query := λ selector w,
    (Ok (if assoc selector (overlays w) is Some _
         then Some (Overlay selector) else None), w);
  isVisible := λ h w,
    (Ok (match h with
         | Overlay selector => default false (assoc selector (overlays w))
         | _ => false
         end), w);
  click := λ h w,
    match h with
    | Overlay selector =>
        (Ok (), {| overlays := filter (λ p, fst p ≠ selector) (overlays w);
                   buttons := buttons w; script := script w;
                   current := current w; html := html w;
                   clicked := clicked w ++ [js selector];
                   clock := clock w |})
    | _ => (Throw (JsError (js "Node is detached from document")), w)
    end;
  waitForSelector := λ selector ms w,
    if bool_decide (selector = "ol.ui-search-layout") then
      match script w with
      | next :: later =>
          let w' := {| overlays := overlays w; buttons := buttons w;
                       script := later; current := next; html := html w;
                       clicked := clicked w;
                       clock := clock w + (if fst (fst next) then 0 else ms) |} in
          (if fst (fst next) then Ok () else toy_timeout selector ms, w')
      | [] => (toy_timeout selector ms, w)
      end
    else
      (if snd (fst (current w)) then Ok () else toy_timeout selector ms, w);
  evaluate_call := λ w, (Ok (), w);
  content := λ w, (Ok (html w), w);
  close := λ w, (Ok (), w);
  setTimeout := λ ms w,
    {| overlays := overlays w; buttons := buttons w; script := script w;
       current := current w; html := html w; clicked := clicked w;
       clock := clock w + ms |};
  writeFileSync := λ _ _ w, (Ok (), w);
  querySelectorAll := λ selector w,
    if bool_decide (selector = "button")
    then imap (λ i _, Button i) (buttons w)
    else imap (λ i _, Item i) (replicate (snd (current w)) ());
  textContent := λ h w,
    match h with
    | Button i => default [] (fst <$> buttons w !! i)
    | _ => []
    end;
  offsetParent := λ h w,
    match h with
    | Button i =>
        if default false (snd <$> buttons w !! i)
        then Some (Overlay "body") else None
    | _ => None
    end;
  dom_click := λ h w,
    match h with
    | Button i =>
        {| overlays := overlays w;
           buttons := alter (λ p, (fst p, false)) i (buttons w);
           script := script w; current := current w; html := html w;
           clicked := clicked w ++ [default [] (fst <$> buttons w !! i)];
           clock := clock w |}
    | _ => w
    end;
|}.

Definition toy_page : toy := {|
  overlays := []; buttons := []; script := []; current := (false, false, 0%nat);
  html := []; clicked := []; clock := 0;
|}.

(** Sample item nodes for the canned cheerio. *)
Definition leaf (t : string) (a : list (string * string)) : stub :=
  Stub (js t) (map (λ p, (fst p, js (snd p))) a) [] [].

Definition sample_item : stub :=
  Stub [] [] [
    ("a.poly-component__title", [leaf "  iPhone 13  " [("href", "/MLB-1")]]);
    (".andes-money-amount__fraction", [leaf "1.234" []; leaf "9" []]);
    (".andes-money-amount__cents", [leaf "56" []]);
    ("img", [leaf "" [("src", "http://img/1.jpg")]])
  ] [].

Definition sample_no_cents : stub :=
  Stub [] [] [
    ("h2 a", [leaf "Capa" []]);
    ("a.ui-search-link",
     [leaf "" [("href", "https://produto.mercadolivre.com.br/MLB-2")]]);
    (".andes-money-amount__fraction", [leaf "89" []]);
    ("img", [leaf "" [("data-src", "https://img/2.webp")]])
  ] [].

Definition sample_no_price : stub :=
  Stub [] [] [
    ("h2 a", [leaf "Capa" []]);
    ("a.ui-search-link", [leaf "" [("href", "/MLB-3")]]);
    (".andes-money-amount__cents", [leaf "90" []]);
    ("img", [leaf "" [("src", "https://img/3.webp")]])
  ] [].

Definition sample_sponsored : stub :=
  Stub [] [] [
    (".ui-search-item--ad", [leaf "Patrocinado" []]);
    ("a.poly-component__title", [leaf "iPhone 13" [("href", "/MLB-1")]]);
    (".andes-money-amount__fraction", [leaf "1.234" []]);
    ("img", [leaf "" [("src", "http://img/1.jpg")]])
  ] [].

Definition sample_broken : stub :=
  Stub [] [] [
    (".andes-money-amount__fraction", [leaf "5" []])
  ] ["h3 a"].

(** ** What the extraction pass is meant to compute *)

Definition record_of (f : fields) : ProductRecord :=
  {| title := substring0 200 (f_title f); price := f_price f;
     permalink := f_permalink f; thumbnail := f_thumbnail f |}.

(** All four fields present: a non-empty title, a price above zero, a
    non-empty permalink and a non-empty thumbnail. *)
Definition accepted (f : fields) : Prop :=
  f_title f ≠ [] ∧ gt_zero (f_price f) = true ∧
  (∃ p, f_permalink f = Some p ∧ p ≠ []) ∧
  (∃ t, f_thumbnail f = Some t ∧ t ≠ []).

(** The record an item node stands for, if any: none for a sponsored node,
    for a node whose resolution throws, and for one with a field missing. *)
Definition candidate {sel} `{Cheerio sel} (e : sel) : option ProductRecord :=
  match find e ".ui-search-item--ad" with
  | Ok ads =>
      if bool_decide (0 < length (elements ads))%nat then None
      else
        match resolve_fields e with
        | Ok f =>
            if truthy (f_title f) && gt_zero (f_price f) &&
               truthy (f_permalink f) && truthy (f_thumbnail f)
            then Some (record_of f) else None
        | Throw _ => None
        end
  | Throw _ => None
  end.

(** A run of decimal digits. *)
Definition digits (s : jsstring) : Prop := Forall (λ c, isDigit c = true) s.

(** ** Notions the statements use *)

(** Follows the spec's words: an "already-absolute link" is a link with a
    scheme, a letter followed by letters, digits, [+], [-] or [.] up to a
    colon (RFC 3986, section 3.1). *)
Definition isAlpha (c : N) : bool :=
  ((65 <=? c) && (c <=? 90) || (97 <=? c) && (c <=? 122))%N.

Definition isSchemeChar (c : N) : bool :=
  isAlpha c || isDigit c || bool_decide (c = 43 ∨ c = 45 ∨ c = 46)%N.

Fixpoint scheme_tail (s : jsstring) : bool :=
  match s with
  | c :: s' =>
      if bool_decide (c = 58%N) then true
      else isSchemeChar c && scheme_tail s'
  | [] => false
  end.

Definition absolute_link (s : jsstring) : bool :=
  match s with
  | c :: s' => isAlpha c && scheme_tail s'
  | [] => false
  end.

(** The error [waitForPageReady] throws once its attempts are used up. *)
Definition probe_failure : js_error :=
  JsError (js "Failed to load search results after multiple attempts").

(** The calls [waitForPageReady] may make: the two waits with their
    timeouts, the item count, and the two fixed delays. *)
Definition probe_event (ev : event) : Prop :=
  ev = WaitForSelector "ol.ui-search-layout" 30000 ∨
  ev = WaitForSelector ".ui-search-layout__item" 10000 ∨
  ev = Evaluate ∨ ev = SetTimeout 2000 ∨ ev = SetTimeout 3000.

Definition is_container_wait (ev : event) : bool :=
  match ev with
  | WaitForSelector selector _ => bool_decide (selector = "ol.ui-search-layout")
  | _ => false
  end.

(** The number of attempts a stretch of the trace holds: every attempt
    starts with one wait for the results container. *)
Definition attempts_in (evs : list event) : nat :=
  length (filter (λ ev, is_container_wait ev = true) evs).

(** Sample pages for the scripted browser. *)

(** Ready on the third attempt: no container, then a container without
    items, then five items. *)
Definition page_ready_third : toy := {|
  overlays := []; buttons := [];
  script := [(false, false, 0%nat); (true, true, 0%nat); (true, true, 5%nat)];
  current := (false, false, 0%nat);
  html := []; clicked := []; clock := 0;
|}.

(** One visible cookie button that only its text identifies. *)
Definition page_accept_button : toy := {|
  overlays := []; buttons := [(js "Aceitar", true)];
  script := []; current := (false, false, 0%nat);
  html := []; clicked := []; clock := 0;
|}.

(** A computation that sends no response. *)
Definition keeps_sent {W A} (c : M (request_state W) A) : Prop :=
  ∀ st, sent (snd (c st)) = sent st.

(** A computation that sends exactly one response, with status 200, when
    it returns, and none when it throws. *)
Definition responds_last {W A} (c : M (request_state W) A) : Prop :=
  ∀ st,
    match c st with
    | (Ok _, st') =>
        ∃ ps, sent st' = sent st ++ [{| status := 200; body := ProductsBody ps |}]
    | (Throw _, st') => sent st' = sent st
    end.

(** The instances the examples run on. *)
Definition canned_cheerio : Cheerio (list stub) := stub_cheerio [].
#[global] Existing Instance canned_cheerio.
#[global] Existing Instance toy_puppeteer.
#[global] Existing Instance ascii_builtins.

(** The fields of [sample_item]; the price is the binary64 nearest to
    1234.56. *)
Definition sample_fields : fields := {|
  f_title := js "iPhone 13";
  f_price := S754_finite false 5429652300748554 (-42);
  f_permalink := Some (js "https://www.mercadolivre.com.br/MLB-1");
  f_thumbnail := Some (js "http://img/1.jpg");
|}.

Definition empty_parse_state : parse_state :=
  {| products := []; console := [] |}.

Definition iphone_query : gmap string query_value :=
  {[ "q" := QString (js "iPhone") ]}.

Definition sample_listing : list stub :=
  [sample_item; sample_sponsored; sample_broken; sample_no_cents].

Definition env_development : gmap string jsstring :=
  {[ "NODE_ENV" := js "development" ]}.

Definition env_test : gmap string jsstring :=
  {[ "NODE_ENV" := js "test" ]}.

Definition iphone_url : jsstring :=
  js "https://lista.mercadolivre.com.br/iPhone".

(** The empty page after the [try] block has run on it: the probe has used
    up its attempts. *)
Definition state_probe_failed : request_state toy :=
  Eval vm_compute in
    snd (scrape (sel:=list stub) env_development iphone_url (start toy_page)).

(** [sample_no_cents] as a record: no cents element, so the price is 89. *)
Definition sample_no_cents_record : ProductRecord := {|
  title := js "Capa";
  price := S754_finite false 6262818231812096 (-46);
  permalink := Some (js "https://produto.mercadolivre.com.br/MLB-2");
  thumbnail := Some (js "https://img/2.webp");
|}.

(** ** Notions for the further properties *)

(** A record as the response should carry it: a non-empty title of at most
    200 code units, a price above zero, a non-empty permalink that starts
    with "http", and a non-empty thumbnail. *)
Definition valid_record (r : ProductRecord) : Prop :=
  title r ≠ [] ∧ (length (title r) ≤ 200)%nat ∧ gt_zero (price r) = true ∧
  (∃ p, permalink r = Some p ∧ p ≠ [] ∧ startsWith (js "http") p = true) ∧
  (∃ t, thumbnail r = Some t ∧ t ≠ []).

(** The item number a console line of the parsing loop carries. *)
Definition line_number (l : log_line) : nat :=
  match l with
  | SkippingSponsored n | ProductLine n _ _ _
  | SkippingIncomplete n _ _ _ _ | ErrorParsing n _ => n
  end.

Definition is_product_line (l : log_line) : bool :=
  match l with ProductLine _ _ _ _ => true | _ => false end.

(** A computation that only makes calls in [P] and leaves the local
    [browser] as it is. *)
Definition emits {W A} (P : event → Prop) (c : M (request_state W) A)
  : Prop :=
  ∀ st, browser (snd (c st)) = browser st ∧
        ∃ evs, trace (snd (c st)) = trace st ++ evs ∧ Forall P evs.

(** The selectors handed to [page.$] in a stretch of the trace. *)
Definition queried (evs : list event) : list string :=
  omap (λ ev, match ev with Query selector => Some selector | _ => None end)
       evs.

Definition is_click (ev : event) : bool :=
  match ev with Click => true | _ => false end.

Definition is_evaluate (ev : event) : bool :=
  match ev with Evaluate => true | _ => false end.

Definition count_events (p : event → bool) (evs : list event) : nat :=
  length (filter (λ ev, p ev = true) evs).

(** The longest a call can keep the script waiting: the timeout of a wait,
    the length of a sleep. *)
Definition budget (ev : event) : Z :=
  match ev with
  | WaitForSelector _ timeout => timeout
  | SetTimeout ms => ms
  | _ => 0
  end.

Definition total_budget (evs : list event) : Z :=
  foldr (λ ev acc, budget ev + acc) 0 evs.

(** The calls of [handlePopupsAndOverlays]. *)
Definition dismiss_event (ev : event) : Prop :=
  ev = SetTimeout 500 ∨ ev = SetTimeout 1000 ∨ (∃ s, ev = Query s) ∨
  ev = IsVisible ∨ ev = Click ∨ ev = Evaluate.

(** A computation that sends one response with status 200 and records in
    [Q] when it returns, and none when it throws. *)
Definition responds_with {W A} (Q : list ProductRecord → Prop)
    (c : M (request_state W) A) : Prop :=
  ∀ st,
    match c st with
    | (Ok _, st') =>
        ∃ ps, sent st' = sent st ++ [{| status := 200; body := ProductsBody ps |}]
              ∧ Q ps
    | (Throw _, st') => sent st' = sent st
    end.

(** The calls between the launch and the readiness probe. *)
Definition setup_event (searchUrl : jsstring) (ev : event) : Prop :=
  ev = NewPage ∨ ev = SetUserAgent userAgent ∨ ev = SetViewport 1280 800 ∨
  ev = Goto searchUrl ∨ ev = SetTimeout 2000 ∨ dismiss_event ev.

(** The calls after the readiness probe; the pause and the debug file only
    outside production. *)
Definition extract_event (env : gmap string jsstring) (ev : event) : Prop :=
  ev = Content ∨
  (not_production env = true ∧
   (ev = SetTimeout 3000 ∨ ev = WriteFileSync "debug_page.html")).

Definition pipeline_event (env : gmap string jsstring)
    (searchUrl : jsstring) (ev : event) : Prop :=
  setup_event searchUrl ev ∨ probe_event ev ∨ extract_event env ev.

Section Parts.
Context {W H sel : Type} `{Puppeteer W H} `{Builtins} `{Cheerio sel}.

(** [open_page] from the call after [launch] on. *)
Definition open_page_rest (searchUrl : jsstring) : M (request_state W) () :=
  perform NewPage newPage;;
  perform (SetUserAgent userAgent) (setUserAgent userAgent);;
  perform (SetViewport 1280 800) (setViewport 1280 800);;
  perform (Goto searchUrl) (goto searchUrl);;
  handlePopupsAndOverlays;;
  sleep 2000;;
  handlePopupsAndOverlays;;
  mret ().

(** The [try] block from the call after [launch] on. *)
Definition scrape_rest (env : gmap string jsstring) (searchUrl : jsstring)
  : M (request_state W) () :=
  open_page_rest searchUrl;;
  waitForPageReady default_maxAttempts;;
  extract_and_respond (sel:=sel) env.

(** The state in which [launch] leaves the request when it resolves, once
    the local [browser] is assigned. *)
Definition launched (st : request_state W) (w : W) : request_state W :=
  {| world := w; trace := trace st ++ [Launch]; sent := sent st;
     browser := true |}.
End Parts.

(** Every call the route can make for a search URL. *)
Definition route_event (env : gmap string jsstring) (searchUrl : jsstring)
    (ev : event) : Prop :=
  ev = Launch ∨ ev = Close ∨ pipeline_event env searchUrl ev.

(** The response of the [catch] block for an error. *)
Definition error_response (env : gmap string jsstring) (error : js_error)
  : response :=
  {| status := 500;
     body := ErrorBody internal_error_message
               (Some (if bool_decide (env !! "NODE_ENV" = Some (js "development"))
                      then message error
                      else js "Check server logs")) |}.

Definition search_url (encoded : jsstring) : jsstring :=
  js "https://lista.mercadolivre.com.br/" ++ encoded.

(** Built-ins whose [encodeURIComponent] throws on a surrogate code unit,
    as the real one does on an unpaired one. *)
Definition strict_builtins : Builtins := {|
  encodeURIComponent := λ s,
    if existsb (λ c, (55296 <=? c)%N && (c <=? 57343)%N) s
    then Throw (JsError (js "URI malformed"))
    else Ok s;
  toLowerCase := λ s, s;
|}.

(** A query whose [q] is a single unpaired surrogate. *)
Definition surrogate_query : gmap string query_value :=
  {[ "q" := QString [55357%N] ]}.

#[global] Instance event_eq_dec : EqDecision event.
Proof. solve_decision. Defined.

(** The calls of a whole request on [page_ready_third]. *)
Definition ready_run_trace : list event :=
  Eval vm_compute in
    trace (snd (search_handler (sel:=list stub) env_development iphone_query
                  (start page_ready_third))).

(** ** The earlier variant of the parsing loop (part_000, lines 104-126)

    The same loop before it was given its fallbacks: one selector per
    field, no [try], no cut of the title, no rewrite of the link, no
    console lines. *)
Section LegacyExtraction.
Context {sel : Type} `{Cheerio sel}.

(** Lines 112-121. *)
Definition legacy_fields (productElement : sel) : result fields :=
  title ← trim <$> (find productElement "h2.ui-search-item__title" ≫= text);
  priceFraction ← priceFraction_of productElement;
  priceCents ← priceCents_of productElement;
  permalink ← find productElement "a.ui-search-link" ≫= (λ s, attr s "href");
  thumbnail ←
    (find productElement "img.ui-search-result-image__element" ≫= λ s, attr s "data-src") |||
    (find productElement "img.ui-search-result-image__element" ≫= λ s, attr s "src");
  let price := compose_price priceFraction priceCents in
  mret {| f_title := title; f_price := price;
          f_permalink := permalink; f_thumbnail := thumbnail |}.

(** Lines 104-126: the callback handed to [each]. *)
Definition legacy_item_callback (index : nat) (element : sel)
  : M parse_state each_return :=
  ads ← lift (find element ".ui-search-item--ad");
  if bool_decide (0 < length (elements ads))%nat
  then mret ReturnUndefined
  else
    f ← lift (legacy_fields element);
    (if truthy (f_title f) && gt_zero (f_price f) &&
        truthy (f_permalink f) && truthy (f_thumbnail f)
     then products_push {| title := f_title f; price := f_price f;
                           permalink := f_permalink f;
                           thumbnail := f_thumbnail f |}
     else mret ());;
    mret ReturnUndefined.

Definition legacy_parse_products (items : sel) : result () * parse_state :=
  each items legacy_item_callback {| products := []; console := [] |}.

(** What a node stands for in the earlier loop: a record, nothing, or the
    exception its resolution throws. *)
Definition legacy_candidate (e : sel) : result (option ProductRecord) :=
  ads ← find e ".ui-search-item--ad";
  if bool_decide (0 < length (elements ads))%nat then Ok None
  else
    f ← legacy_fields e;
    Ok (if truthy (f_title f) && gt_zero (f_price f) &&
           truthy (f_permalink f) && truthy (f_thumbnail f)
        then Some {| title := f_title f; price := f_price f;
                     permalink := f_permalink f;
                     thumbnail := f_thumbnail f |}
        else None).

(** The record of a node whose resolution does not throw. *)
Definition legacy_record (e : sel) : option ProductRecord :=
  match legacy_candidate e with
  | Ok o => o
  | Throw _ => None
  end.

Definition resolves (e : sel) : Prop := ∃ o, legacy_candidate e = Ok o.
End LegacyExtraction.

(** A node the earlier loop accepts. *)
Definition sample_legacy_item : stub :=
  Stub [] [] [
    ("h2.ui-search-item__title", [leaf " Capa " []]);
    ("a.ui-search-link", [leaf "" [("href", "/MLB-4")]]);
    (".andes-money-amount__fraction", [leaf "12" []]);
    ("img.ui-search-result-image__element",
     [leaf "" [("src", "https://img/4.webp")]])
  ] [].

(** A node on which the title selector throws. *)
Definition sample_legacy_broken : stub :=
  Stub [] [] [] ["h2.ui-search-item__title"].

Definition sample_legacy_record : ProductRecord := {|
  title := js "Capa";
  price := S754_finite false 6755399441055744 (-49);
  permalink := Some (js "/MLB-4");
  thumbnail := Some (js "https://img/4.webp");
|}.


(** An attribute of the first element a selector finds below a node. *)
Definition found_attr {sel} `{Cheerio sel} (e : sel) (selector name : string)
  : result (option jsstring) :=
  find e selector ≫= λ s, attr s name.

(** A node whose title is under the last fallback and whose image has both
    attributes. *)
Definition sample_fallbacks : stub :=
  Stub [] [] [
    ("a.poly-component__title", [leaf "   " []]);
    ("h2 a", [leaf " Capa " []]);
    ("img.ui-search-result-image__element",
     [leaf "" [("data-src", "https://img/5.webp"); ("src", "data:image/gif")]])
  ] [].

(** ** The readiness probe as the spec words it

    Follows the spec's words: "on each attempt: wait for the container
    selector; if found, wait for at least one item selector; if item count
    is still zero, treat as not-ready and retry after the delay; if the
    container itself times out, also retry after a longer delay", with its
    parameters: 30 s for the container, 10 s for an item, 2 s and 3 s for
    the delays.  As in the code, the longer delay is left out after the
    last attempt. *)

(** What one attempt meets on the page, with the world it leaves. *)
Inductive sight (W : Type) :=
| NoContainer (w : W)
| NoItem (w : W)
| NoCount (w : W)
| NoItems (w : W)
| SomeItems (w : W).
Arguments NoContainer {W} w.
Arguments NoItem {W} w.
Arguments NoCount {W} w.
Arguments NoItems {W} w.
Arguments SomeItems {W} w.

Section ProbeSpec.
Context {W H : Type} `{Puppeteer W H}.

(** The page calls of one attempt, in order: the container within 30 s,
    an item within 10 s, then the count of the items. *)
Definition look (w : W) : sight W :=
  match waitForSelector "ol.ui-search-layout" 30000 w with
  | (Throw _, w1) => NoContainer w1
  | (Ok _, w1) =>
      match waitForSelector ".ui-search-layout__item" 10000 w1 with
      | (Throw _, w2) => NoItem w2
      | (Ok _, w2) =>
          match evaluate_call w2 with
          | (Throw _, w3) => NoCount w3
          | (Ok _, w3) =>
              if bool_decide
                   (0 < length (querySelectorAll ".ui-search-layout__item" w3))%nat
              then SomeItems w3
              else NoItems w3
          end
      end
  end.

Definition sight_world (s : sight W) : W :=
  match s with
  | NoContainer w | NoItem w | NoCount w | NoItems w | SomeItems w => w
  end.

Definition found_items (s : sight W) : bool :=
  match s with SomeItems _ => true | _ => false end.

(** The calls an attempt has made when it has met [s]. *)
Definition attempt_calls (s : sight W) : list event :=
  match s with
  | NoContainer _ => [WaitForSelector "ol.ui-search-layout" 30000]
  | NoItem _ =>
      [WaitForSelector "ol.ui-search-layout" 30000;
       WaitForSelector ".ui-search-layout__item" 10000]
  | NoCount _ | NoItems _ | SomeItems _ =>
      [WaitForSelector "ol.ui-search-layout" 30000;
       WaitForSelector ".ui-search-layout__item" 10000;
       Evaluate]
  end.

(** The delay before the next attempt: none once items are there, 2 s
    after a count of zero, 3 s after a wait or a count that failed, unless
    the attempt was the last. *)
Definition retry_delay (maxAttempts attempt : nat) (s : sight W)
  : option Z :=
  match s with
  | SomeItems _ => None
  | NoItems _ => Some 2000
  | NoContainer _ | NoItem _ | NoCount _ =>
      if bool_decide (attempt < maxAttempts)%nat then Some 3000 else None
  end.

Definition attempt_events (maxAttempts attempt : nat) (s : sight W)
  : list event :=
  attempt_calls s ++
  match retry_delay maxAttempts attempt s with
  | Some ms => [SetTimeout ms]
  | None => []
  end.

Definition after_attempt (maxAttempts attempt : nat) (s : sight W) : W :=
  match retry_delay maxAttempts attempt s with
  | Some ms => setTimeout ms (sight_world s)
  | None => sight_world s
  end.

(** [n] attempts in a row, from attempt number [attempt] on a page in
    world [w]: whether none of them finds items, the world they leave,
    and the calls they make. *)
Fixpoint none_ready (maxAttempts attempt n : nat) (w : W) : bool :=
  match n with
  | O => true
  | S n' =>
      negb (found_items (look w)) &&
      none_ready maxAttempts (S attempt) n'
        (after_attempt maxAttempts attempt (look w))
  end.

Fixpoint world_after (maxAttempts attempt n : nat) (w : W) : W :=
  match n with
  | O => w
  | S n' =>
      world_after maxAttempts (S attempt) n'
        (after_attempt maxAttempts attempt (look w))
  end.

Fixpoint events_after (maxAttempts attempt n : nat) (w : W) : list event :=
  match n with
  | O => []
  | S n' =>
      attempt_events maxAttempts attempt (look w) ++
      events_after maxAttempts (S attempt) n'
        (after_attempt maxAttempts attempt (look w))
  end.

End ProbeSpec.

(** [page_ready_third] when its third attempt has counted the items. *)
Definition page_ready_third_seen : toy := {|
  overlays := []; buttons := [];
  script := []; current := (true, true, 5%nat);
  html := []; clicked := []; clock := 35000;
|}.

(** A document with the sample listing as its item nodes. *)
Definition listing_doc : list stub :=
  [Stub [] [] [(".ui-search-layout__item", sample_listing)] []].

Definition listing_cheerio : Cheerio (list stub) := stub_cheerio listing_doc.

(** * Properties of the extraction pass *)

Lemma accepted_truthy (f : fields) :
  accepted f ↔
  truthy (f_title f) && gt_zero (f_price f) &&
  truthy (f_permalink f) && truthy (f_thumbnail f) = true.
Proof.
  unfold accepted. rewrite !andb_true_iff.
  destruct f as [t p l th]; simpl. split.
  - intros (Ht & Hp & (pl & -> & Hl) & (pt & -> & Hth)).
    destruct t, pl, pt; done.
  - intros [[[Ht Hp] Hl] Hth].
    destruct t; [done|]. destruct l as [[|]|], th as [[|]|]; try done.
    repeat split; eauto.
Qed.

Lemma gt_zero_spec (x : number) :
  gt_zero x = true ↔
  x = S754_infinity false ∨ ∃ m e, x = S754_finite false m e.
Proof.
  destruct x as [[]|[]| |[] m e]; cbn; split;
    try done; try (intros [|(? & ? & ?)]; done); eauto.
Qed.

(** A filter-map keeps a sublist of its input, in order, and maps it
    element by element. *)
Lemma omap_kept {A B} (f : A → option B) (l : list A) :
  ∃ kept, kept `sublist_of` l ∧
          Forall2 (λ x y, f x = Some y) kept (omap f l) ∧
          (∀ x, x ∈ l → x ∉ kept → f x = None).
Proof.
  induction l as [|a l (kept & Hsub & Hall & Hrest)].
  - exists []. split; [constructor|]. split; [constructor|].
    intros x Hx. by inversion Hx.
  - simpl. destruct (f a) as [b|] eqn:Hfa.
    + exists (a :: kept). split; [by constructor|].
      split; [by constructor|].
      intros x Hx Hnot. apply elem_of_cons in Hx as [->|Hx].
      * exfalso. apply Hnot. left.
      * apply Hrest; [done|]. intros Hk. apply Hnot. by right.
    + exists kept. split; [by constructor|]. split; [done|].
      intros x Hx Hnot. apply elem_of_cons in Hx as [->|Hx]; [done|].
      by apply Hrest.
Qed.

Lemma omap_length_le {A B} (f : A → option B) (l : list A) :
  (length (omap f l) ≤ length l)%nat.
Proof.
  induction l as [|a l IH]; [done|].
  change (omap f (a :: l))
    with (match f a with Some y => y :: omap f l | None => omap f l end).
  destruct (f a); simpl; lia.
Qed.

Section ExtractionFacts.
Context {sel : Type} `{Cheerio sel}.

Lemma item_callback_candidate (index : nat) (e : sel) (st : parse_state) :
  ∃ st', item_callback index e st = (Ok ReturnUndefined, st') ∧
         products st' = products st ++ option_list (candidate e).
Proof.
  unfold item_callback, item_body, candidate, try_catch.
  cbv [mbind M_bind lift mret M_ret].
  destruct (find e ".ui-search-item--ad") as [ads|err]; simpl.
  - case_bool_decide; simpl.
    + eexists; split; [reflexivity|]. simpl. by rewrite app_nil_r.
    + destruct (resolve_fields e) as [f|err]; simpl.
      * unfold validate_and_push.
        destruct (truthy (f_title f) && gt_zero (f_price f) &&
                  truthy (f_permalink f) && truthy (f_thumbnail f)); simpl.
        -- eexists; split; [reflexivity|]. reflexivity.
        -- eexists; split; [reflexivity|]. simpl. by rewrite app_nil_r.
      * eexists; split; [reflexivity|]. simpl. by rewrite app_nil_r.
  - eexists; split; [reflexivity|]. simpl. by rewrite app_nil_r.
Qed.

Lemma each_from_candidate (els : list sel) (index : nat)
    (st : parse_state) :
  ∃ st', each_from item_callback index els st = (Ok (), st') ∧
         products st' = products st ++ omap candidate els.
Proof.
  revert index st. induction els as [|e els IH]; intros index st.
  - exists st. split; [reflexivity|]. simpl. by rewrite app_nil_r.
  - destruct (item_callback_candidate index e st) as (st1 & Hcb & Hp1).
    destruct (IH (S index) st1) as (st2 & Hrest & Hp2).
    exists st2. split.
    + simpl. cbv [mbind M_bind]. rewrite Hcb. exact Hrest.
    + rewrite Hp2, Hp1, <- app_assoc. f_equal.
      simpl. by destruct (candidate e).
Qed.

Lemma parse_products_candidate (items : sel) :
  parse_products items =
    (Ok (), snd (parse_products items)) ∧
  products (snd (parse_products items)) = omap candidate (elements items).
Proof.
  unfold parse_products, each.
  destruct (each_from_candidate (elements items) 0
              {| products := []; console := [] |}) as (st' & -> & Hp).
  split; [reflexivity|]. exact Hp.
Qed.

Lemma candidate_sponsored (e ads : sel) :
  find e ".ui-search-item--ad" = Ok ads →
  (0 < length (elements ads))%nat →
  candidate e = None.
Proof.
  intros Hfind Hlen. unfold candidate. rewrite Hfind.
  by rewrite bool_decide_eq_true_2.
Qed.

Lemma candidate_resolved (e ads : sel) (f : fields) :
  find e ".ui-search-item--ad" = Ok ads →
  length (elements ads) = 0%nat →
  resolve_fields e = Ok f →
  (accepted f → candidate e = Some (record_of f)) ∧
  (¬ accepted f → candidate e = None).
Proof.
  intros Hfind Hlen Hres. unfold candidate.
  rewrite Hfind, Hres, bool_decide_eq_false_2 by lia.
  rewrite accepted_truthy.
  destruct (truthy (f_title f) && gt_zero (f_price f) &&
            truthy (f_permalink f) && truthy (f_thumbnail f)); split; done.
Qed.

Lemma candidate_valid (e : sel) (r : ProductRecord) :
  candidate e = Some r →
  title r ≠ [] ∧ (length (title r) ≤ 200)%nat ∧ gt_zero (price r) = true ∧
  (∃ p, permalink r = Some p ∧ p ≠ []) ∧
  (∃ t, thumbnail r = Some t ∧ t ≠ []).
Proof.
  unfold candidate.
  destruct (find e ".ui-search-item--ad") as [ads|]; [|done].
  case_bool_decide; [done|].
  destruct (resolve_fields e) as [f|]; [|done].
  destruct (truthy (f_title f) && gt_zero (f_price f) &&
            truthy (f_permalink f) && truthy (f_thumbnail f)) eqn:Hok; [|done].
  intros [= <-]. apply accepted_truthy in Hok.
  destruct Hok as (Ht & Hp & Hl & Hth).
  cbn [title price permalink thumbnail record_of].
  split; [unfold substring0; by destruct (f_title f)|].
  split; [unfold substring0; rewrite length_take; lia|].
  done.
Qed.

End ExtractionFacts.

Section ExtractionClaims.
Context {sel : Type} `{Cheerio sel}.

Lemma item_body_throws (index : nat) (e : sel) (st st1 : parse_state)
    (error : js_error) :
  item_body index e st = (Throw error, st1) →
  st1 = st ∧ candidate e = None.
Proof.
  unfold item_body, candidate. cbv [mbind M_bind lift].
  destruct (find e ".ui-search-item--ad") as [ads|err]; simpl.
  - case_bool_decide; simpl; [done|].
    destruct (resolve_fields e) as [f|err]; simpl.
    + unfold validate_and_push.
      destruct (truthy (f_title f) && gt_zero (f_price f) &&
                truthy (f_permalink f) && truthy (f_thumbnail f)); done.
    + by intros [= _ <-].
  - by intros [= _ <-].
Qed.

(** C1. For an item node that reaches field resolution, a record is
    pushed to [products] if and only if the resolved title is non-empty,
    the composed price is above zero, and the resolved permalink and
    thumbnail are non-empty; the pushed record carries the title cut to
    at most 200 code units. *)
Theorem record_pushed_iff_all_fields (index : nat) (e ads : sel)
    (f : fields) (st : parse_state) :
  find e ".ui-search-item--ad" = Ok ads →
  length (elements ads) = 0%nat →
  resolve_fields e = Ok f →
  let st' := snd (item_callback index e st) in
  ((∃ r, products st' = products st ++ [r]) ↔ accepted f) ∧
  (accepted f → products st' = products st ++ [record_of f]) ∧
  (¬ accepted f → products st' = products st) ∧
  title (record_of f) = take 200 (f_title f) ∧
  (length (title (record_of f)) ≤ 200)%nat.
Proof.
  intros Hfind Hlen Hres st'.
  destruct (item_callback_candidate index e st) as (st1 & Hcb & Hp).
  destruct (candidate_resolved e ads f Hfind Hlen Hres) as [Hyes Hno].
  assert (Hst : st' = st1) by (unfold st'; by rewrite Hcb).
  rewrite Hst, Hp.
  assert (Hpush : accepted f → products st ++ option_list (candidate e)
                               = products st ++ [record_of f]).
  { intros Ha. by rewrite (Hyes Ha). }
  assert (Hskip : ¬ accepted f → products st ++ option_list (candidate e)
                                 = products st).
  { intros Ha. rewrite (Hno Ha). simpl. by rewrite app_nil_r. }
  split; [|split; [done|split; [done|split; [done|]]]].
  - split.
    + intros [r Hr].
      destruct (truthy (f_title f) && gt_zero (f_price f) &&
                truthy (f_permalink f) && truthy (f_thumbnail f)) eqn:Hb;
        [by apply accepted_truthy|].
      assert (Hn : ¬ accepted f) by (rewrite accepted_truthy, Hb; done).
      rewrite (Hskip Hn) in Hr. apply (f_equal length) in Hr.
      rewrite length_app in Hr. simpl in Hr. lia.
    + intros Ha. exists (record_of f). by apply Hpush.
  - cbn [title record_of]. unfold substring0. rewrite length_take. lia.
Qed.

(** C7. A node that carries the sponsored marker is skipped before any
    field is resolved: the callback only logs the skip, pushes nothing,
    and the node contributes no record to the output of the pass. *)
Theorem sponsored_item_is_skipped (index : nat) (e ads : sel)
    (st : parse_state) (items : sel) (xs ys : list sel) :
  find e ".ui-search-item--ad" = Ok ads →
  (0 < length (elements ads))%nat →
  elements items = xs ++ e :: ys →
  item_callback index e st =
    (Ok ReturnUndefined,
     {| products := products st;
        console := console st ++ [SkippingSponsored (index + 1)] |}) ∧
  candidate e = None ∧
  products (snd (parse_products items)) =
    omap candidate xs ++ omap candidate ys.
Proof.
  intros Hfind Hlen Hitems. split; [|split].
  - unfold item_callback, item_body, try_catch.
    cbv [mbind M_bind lift mret M_ret]. rewrite Hfind. simpl.
    by rewrite bool_decide_eq_true_2.
  - by eapply candidate_sponsored.
  - destruct (parse_products_candidate items) as [_ ->].
    rewrite Hitems, omap_app. simpl.
    by rewrite (candidate_sponsored e ads).
Qed.

(** C8. An exception thrown while an item node is processed is caught in
    the callback and turned into a skip: the callback returns normally,
    only logs the error and pushes nothing; the pass as a whole never
    throws, and the records of the other nodes are those it would
    produce without the failing node. *)
Theorem item_failure_is_isolated (index : nat) (e : sel)
    (st st1 : parse_state) (error : js_error)
    (items : sel) (xs ys : list sel) :
  item_body index e st = (Throw error, st1) →
  elements items = xs ++ e :: ys →
  item_callback index e st =
    (Ok ReturnUndefined,
     {| products := products st;
        console := console st ++ [ErrorParsing (index + 1) (message error)] |}) ∧
  fst (parse_products items) = Ok () ∧
  products (snd (parse_products items)) =
    omap candidate xs ++ omap candidate ys.
Proof.
  intros Hbody Hitems.
  destruct (item_body_throws _ _ _ _ _ Hbody) as [-> Hnone].
  split; [|split].
  - unfold item_callback, try_catch. cbv [mbind M_bind mret M_ret].
    by rewrite Hbody.
  - destruct (parse_products_candidate items) as [-> _]. done.
  - destruct (parse_products_candidate items) as [_ ->].
    rewrite Hitems, omap_app. simpl. by rewrite Hnone.
Qed.

(** C10. The extraction pass is an order-preserving filter-map: the
    output array is the list of the item nodes' records, in the order of
    the nodes, with the skipped nodes left out, nothing reordered and
    nothing duplicated. *)
Theorem extraction_is_filter_map (items : sel) :
  fst (parse_products items) = Ok () ∧
  products (snd (parse_products items)) = omap candidate (elements items) ∧
  (∃ kept, kept `sublist_of` elements items ∧
           Forall2 (λ e r, candidate e = Some r) kept
             (products (snd (parse_products items))) ∧
           (∀ e, e ∈ elements items → e ∉ kept → candidate e = None)) ∧
  (length (products (snd (parse_products items)))
     ≤ length (elements items))%nat.
Proof.
  destruct (parse_products_candidate items) as [Hok Hp].
  split; [by rewrite Hok|]. split; [done|]. rewrite Hp.
  split; [apply omap_kept | apply omap_length_le].
Qed.

End ExtractionClaims.

(** * Properties of price parsing *)

Lemma isDigit_cases (c : N) :
  isDigit c = true →
  (c = 48 ∨ c = 49 ∨ c = 50 ∨ c = 51 ∨ c = 52 ∨
   c = 53 ∨ c = 54 ∨ c = 55 ∨ c = 56 ∨ c = 57)%N.
Proof. unfold isDigit. rewrite andb_true_iff, !N.leb_le. lia. Qed.

Ltac digit_cases H :=
  apply isDigit_cases in H;
  repeat (destruct H as [H|H]); subst.

Lemma isWhiteSpace_digit (c : N) : isDigit c = true → isWhiteSpace c = false.
Proof. intros Hc. digit_cases Hc; by vm_compute. Qed.

Lemma spanDigits_app (ds r : jsstring) :
  digits ds →
  match r with c :: _ => isDigit c = false | [] => True end →
  spanDigits (ds ++ r) = (ds, r).
Proof.
  intros Hds Hr. induction Hds as [|c ds Hc _ IH]; simpl.
  - destruct r as [|c r]; [done|]. simpl. by rewrite Hr.
  - by rewrite Hc, IH.
Qed.

Lemma spanDigits_all (ds : jsstring) : digits ds → spanDigits ds = (ds, []).
Proof.
  intros Hds. rewrite <- (app_nil_r ds) at 1. by apply spanDigits_app.
Qed.

Lemma digitsValue_app (a b : jsstring) :
  digitsValue (a ++ b) =
  fold_left (λ acc c, 10 * acc + (Z.of_N c - 48)) b (digitsValue a).
Proof. unfold digitsValue. by rewrite fold_left_app. Qed.

Lemma Number_of_Q_proper (neg : bool) (q1 q2 : Q) :
  Qeq q1 q2 → Number_of_Q neg q1 = Number_of_Q neg q2.
Proof. intros Heq. unfold Number_of_Q. by rewrite (Qred_complete _ _ Heq). Qed.

Lemma parseFloat_decimal (ip fp : jsstring) :
  ip ≠ [] → digits ip → digits fp →
  parseFloat (ip ++ js "." ++ fp) =
  Number_of_Q false (decimalMV (digitsValue (ip ++ fp)) (length fp) 0).
Proof.
  intros Hne Hip Hfp.
  assert (Hspan : spanDigits (ip ++ js "." ++ fp) = (ip, 46%N :: fp)).
  { by apply spanDigits_app. }
  destruct ip as [|c ip]; [done|].
  assert (Hc : isDigit c = true) by (by inversion Hip).
  unfold parseFloat.
  change ((c :: ip) ++ js "." ++ fp) with (c :: (ip ++ js "." ++ fp)) in *.
  cbn [trimStart]. rewrite (isWhiteSpace_digit c Hc).
  pose proof (isDigit_cases c Hc) as Hcases.
  rewrite !bool_decide_eq_false_2 by lia.
  unfold strUnsignedDecimalLiteral.
  change (js "Infinity") with (73%N :: js "nfinity"). cbn [startsWith].
  rewrite bool_decide_eq_false_2 by lia. cbn [andb].
  rewrite Hspan, (spanDigits_all fp Hfp). reflexivity.
Qed.

Lemma decimalMV_two_zeros (ip : jsstring) :
  Qeq (decimalMV (digitsValue (ip ++ js "00")) (length (js "00")) 0)
      (inject_Z (digitsValue ip)).
Proof.
  rewrite digitsValue_app. unfold decimalMV.
  change (length (js "00")) with 2%nat.
  change (fold_left _ (js "00") (digitsValue ip))
    with (10 * (10 * digitsValue ip + (48 - 48)) + (48 - 48)).
  change (Qpower (10 # 1) (0 - Z.of_nat 2)) with (1 # 100)%Q.
  unfold Qeq, Qmult, inject_Z. simpl Qnum. simpl Qden. lia.
Qed.

Lemma compose_price_digits (priceFraction priceCents : jsstring) :
  priceFraction ≠ [] → digits priceFraction → digits priceCents →
  compose_price priceFraction priceCents =
  Number_of_Q false
    (decimalMV (digitsValue (priceFraction ++ priceCents))
       (length priceCents) 0).
Proof.
  intros Hne Hf Hc. unfold compose_price.
  destruct priceFraction; [done|]. cbn [truthy truthy_string].
  by apply parseFloat_decimal.
Qed.

Lemma validate_and_push_products {sel} `{Cheerio sel} (index : nat)
    (f : fields) (st : parse_state) :
  (accepted f →
   products (snd (validate_and_push index f st)) = products st ++ [record_of f]) ∧
  (¬ accepted f →
   products (snd (validate_and_push index f st)) = products st).
Proof.
  rewrite accepted_truthy. unfold validate_and_push.
  destruct (truthy (f_title f) && gt_zero (f_price f) &&
            truthy (f_permalink f) && truthy (f_thumbnail f)); split; done.
Qed.

Section PriceClaims.
Context {sel : Type} `{Cheerio sel}.

(** C2. The price is a function of the texts of the two price elements
    alone: dots and commas are removed from the integer-part text, an
    empty fractional-part text is replaced by "00", and the two are
    joined by a dot and parsed.  On digit strings the result is the
    Number value of the decimal with the fractional digits after the
    point; with no fractional text it is the value of the integer part;
    with an empty integer-part text it is 0 and the item is rejected. *)
Theorem price_from_texts (e : sel) (f : fields) (it ct : jsstring) :
  resolve_fields e = Ok f →
  first_text e ".andes-money-amount__fraction" = Ok it →
  first_text e ".andes-money-amount__cents" = Ok ct →
  let stripped := removeAll 44%N (removeAll 46%N it) in
  let cents := if truthy ct then ct else js "00" in
  f_price f =
    (if truthy stripped then parseFloat (stripped ++ js "." ++ cents)
     else zero) ∧
  Forall (λ c, c ≠ 46%N ∧ c ≠ 44%N) stripped ∧
  (stripped ≠ [] → digits stripped → digits cents →
   f_price f =
     Number_of_Q false
       (decimalMV (digitsValue (stripped ++ cents)) (length cents) 0)) ∧
  (stripped ≠ [] → digits stripped → ct = [] →
   f_price f = Number_of_Q false (inject_Z (digitsValue stripped))) ∧
  (it = [] →
   f_price f = zero ∧ ¬ accepted f ∧
   ∀ index st,
     products (snd (validate_and_push index f st)) = products st).
Proof.
  intros Hres Hit Hct stripped cents.
  assert (Hprice : f_price f = compose_price stripped cents).
  { unfold resolve_fields, priceFraction_of, priceCents_of in Hres.
    rewrite Hit, Hct in Hres.
    cbv [mbind result_bind fmap result_fmap js_or mret result_ret] in Hres.
    unfold cents.
    destruct (title_of e), (truthy ct), (permalink_of e), (thumbnail_of e);
      try discriminate Hres; by injection Hres as <-. }
  split; [exact Hprice|]. split; [|split; [|split]].
  - unfold stripped, removeAll. apply Forall_forall. intros c Hc.
    apply list_elem_of_filter in Hc as [H44 Hc].
    by apply list_elem_of_filter in Hc as [H46 _].
  - intros Hne Hds Hcs. rewrite Hprice. by apply compose_price_digits.
  - intros Hne Hds ->. rewrite Hprice. unfold cents.
    cbn [truthy truthy_string].
    rewrite compose_price_digits by (done || by vm_compute; repeat constructor).
    apply Number_of_Q_proper, decimalMV_two_zeros.
  - intros ->. assert (Hzero : f_price f = zero) by (by rewrite Hprice).
    assert (Hrej : ¬ accepted f).
    { intros (_ & Hgt & _). by rewrite Hzero in Hgt. }
    split; [done|]. split; [done|]. intros index st.
    by apply validate_and_push_products.
Qed.

End PriceClaims.

(** * Properties of permalink normalization *)

(** C3 (as amended). A non-empty permalink that does not start with "http"
    is prefixed with the site origin, so "/item/123" becomes
    "https://www.mercadolivre.com.br/item/123"; a permalink that starts
    with "http" is left as it is; an absent or empty one stays absent or
    empty. *)
Theorem permalink_normalization (p : jsstring) :
  (p ≠ [] → startsWith (js "http") p = false →
   normalize_permalink (Some p) = Some (origin ++ p)) ∧
  (startsWith (js "http") p = true → normalize_permalink (Some p) = Some p) ∧
  (∀ rest, p = js "/" ++ rest →
           normalize_permalink (Some p) = Some (origin ++ p)) ∧
  (∀ rest, p = js "http://" ++ rest ∨ p = js "https://" ++ rest →
           normalize_permalink (Some p) = Some p) ∧
  normalize_permalink (Some []) = Some [] ∧
  normalize_permalink None = None.
Proof.
  split; [|split; [|split; [|split; [|split]]]]; try done.
  - intros Hne Hs. unfold normalize_permalink. rewrite Hs.
    by destruct p.
  - intros Hs. unfold normalize_permalink. rewrite Hs.
    by rewrite andb_false_r.
  - by intros rest ->.
  - by intros rest [-> | ->].
Qed.

Lemma permalink_normalization_witness :
  js "/item/123" ≠ [] ∧ startsWith (js "http") (js "/item/123") = false ∧
  normalize_permalink (Some (js "/item/123")) =
    Some (js "https://www.mercadolivre.com.br/item/123").
Proof.
  assert (Hne : js "/item/123" ≠ []) by done.
  assert (Hs : startsWith (js "http") (js "/item/123") = false)
    by reflexivity.
  split; [exact Hne|]. split; [exact Hs|].
  exact (proj1 (permalink_normalization (js "/item/123")) Hne Hs).
Defined.

(** C3 (as stated) fails: an absolute link whose scheme is not spelled
    "http..." does not pass through unchanged; the origin is glued in
    front of it. *)
Lemma absolute_link_rewritten :
  absolute_link (js "ftp://example.com/item/123") = true ∧
  normalize_permalink (Some (js "ftp://example.com/item/123")) =
    Some (js "https://www.mercadolivre.com.brftp://example.com/item/123") ∧
  normalize_permalink (Some (js "ftp://example.com/item/123")) ≠
    Some (js "ftp://example.com/item/123").
Proof. split; [reflexivity|]. split; [reflexivity|]. discriminate. Qed.

(** * Properties of the request pipeline *)

Section SentFacts.
Context {W : Type}.
Implicit Types st : request_state W.

Lemma keeps_sent_ret {A} (a : A) : keeps_sent (W:=W) (mret a).
Proof. by intros st. Qed.

Lemma keeps_sent_lift {A} (r : result A) : keeps_sent (W:=W) (lift r).
Proof. by intros st. Qed.

Lemma keeps_sent_bind {A B} (c : M (request_state W) A)
    (f : A → M (request_state W) B) :
  keeps_sent c → (∀ a, keeps_sent (f a)) → keeps_sent (c ≫= f).
Proof.
  intros Hc Hf st. unfold mbind, M_bind.
  specialize (Hc st). destruct (c st) as [[a|err] st1]; simpl in *.
  - by rewrite Hf.
  - done.
Qed.

Lemma keeps_sent_try_catch {A} (c : M (request_state W) A)
    (h : js_error → M (request_state W) A) :
  keeps_sent c → (∀ e, keeps_sent (h e)) → keeps_sent (try_catch c h).
Proof.
  intros Hc Hh st. unfold try_catch.
  specialize (Hc st). destruct (c st) as [[a|err] st1]; simpl in *.
  - done.
  - by rewrite Hh.
Qed.

Lemma responds_last_bind {A B} (c : M (request_state W) A)
    (f : A → M (request_state W) B) :
  keeps_sent c → (∀ a, responds_last (f a)) → responds_last (c ≫= f).
Proof.
  intros Hc Hf st. unfold mbind, M_bind.
  specialize (Hc st). destruct (c st) as [[a|err] st1]; simpl in *.
  - specialize (Hf a st1). destruct (f a st1) as [[b|err] st2];
      by rewrite <- Hc.
  - done.
Qed.

End SentFacts.

Section BrowserFacts.
Context {W H : Type} `{Puppeteer W H} `{Builtins}.
Implicit Types st : request_state W.

Lemma keeps_sent_perform {A} (ev : event) (op : M W A) :
  keeps_sent (perform ev op).
Proof. intros st. unfold perform. by destruct (op (world st)). Qed.

Lemma keeps_sent_sleep (ms : Z) : keeps_sent (sleep ms).
Proof. apply keeps_sent_perform. Qed.

Lemma keeps_sent_page_evaluate {A} (fn : W → A * W) :
  keeps_sent (page_evaluate fn).
Proof. apply keeps_sent_perform. Qed.

Lemma keeps_sent_throw {A} (msg : string) : keeps_sent (W:=W) (throw (A:=A) msg).
Proof. by intros st. Qed.

End BrowserFacts.

Ltac keeps :=
  repeat first
    [ apply keeps_sent_ret | apply keeps_sent_lift | apply keeps_sent_throw
    | apply keeps_sent_sleep | apply keeps_sent_page_evaluate
    | apply keeps_sent_perform
    | apply keeps_sent_bind; [|intros ?]
    | apply keeps_sent_try_catch; [|intros ?]
    | match goal with
      | |- keeps_sent (match ?x with _ => _ end) => destruct x
      | |- keeps_sent (if ?b then _ else _) => destruct b
      end ].

Section HelperFacts.
Context {W H : Type} `{Puppeteer W H} `{Builtins}.
Implicit Types st : request_state W.

Lemma keeps_sent_popup_by_selector (selector : string) (n : nat) :
  keeps_sent (popup_by_selector selector n).
Proof. unfold popup_by_selector. keeps. Qed.

Lemma keeps_sent_popups_by_selector (selectors : list string) (n : nat) :
  keeps_sent (popups_by_selector selectors n).
Proof.
  revert n. induction selectors as [|s l IH]; intros n; simpl; keeps.
  apply IH.
Qed.

Lemma keeps_sent_popups_by_text (entries : list (string * string)) :
  keeps_sent (popups_by_text entries).
Proof.
  induction entries as [|[text description] l IH]; simpl; keeps.
  apply IH.
Qed.

Lemma keeps_sent_handlePopupsAndOverlays :
  keeps_sent handlePopupsAndOverlays.
Proof.
  unfold handlePopupsAndOverlays. keeps.
  all: first [ apply keeps_sent_popups_by_selector
             | apply keeps_sent_popups_by_text ].
Qed.

Lemma keeps_sent_probe_attempt (maxAttempts attempt : nat) :
  keeps_sent (probe_attempt maxAttempts attempt).
Proof. unfold probe_attempt. keeps. Qed.

Lemma keeps_sent_probe_from (maxAttempts attempt remaining : nat) :
  keeps_sent (probe_from maxAttempts attempt remaining).
Proof.
  revert attempt. induction remaining as [|n IH]; intros attempt; simpl; keeps.
  apply IH.
Qed.

Lemma keeps_sent_waitForPageReady (maxAttempts : nat) :
  keeps_sent (waitForPageReady maxAttempts).
Proof. apply keeps_sent_probe_from. Qed.

(** The text pass never throws and never changes the count. *)
Lemma popups_by_text_ok (entries : list (string * string)) st :
  fst (popups_by_text entries st) = Ok ().
Proof.
  revert st. induction entries as [|[text description] l IH]; intros st.
  - done.
  - simpl. unfold mbind, M_bind, try_catch.
    destruct (page_evaluate _ st) as [[b|err] st1]; simpl.
    + destruct (sleep 500 st1) as [[[]|err] st2] eqn:Hs; simpl; apply IH.
    + apply IH.
Qed.

Lemma handlePopupsAndOverlays_count st :
  fst (handlePopupsAndOverlays st) =
  fst (popups_by_selector popupSelectors 0 st).
Proof.
  unfold handlePopupsAndOverlays, mbind, M_bind, try_catch.
  destruct (popups_by_selector popupSelectors 0 st) as [[n|err] st1];
    [|done].
  pose proof (popups_by_text_ok textBasedSelectors st1) as Hok.
  destruct (popups_by_text textBasedSelectors st1) as [[[]|err] st2];
    simpl in *; done.
Qed.

(** *** The readiness probe *)

Lemma attempts_in_app (evs1 evs2 : list event) :
  attempts_in (evs1 ++ evs2) = (attempts_in evs1 + attempts_in evs2)%nat.
Proof. unfold attempts_in. by rewrite filter_app, length_app. Qed.

Lemma probe_event_container :
  probe_event (WaitForSelector resultsContainerSelector 30000).
Proof. by left. Qed.
Lemma probe_event_item :
  probe_event (WaitForSelector ".ui-search-layout__item" 10000).
Proof. right. by left. Qed.
Lemma probe_event_evaluate : probe_event Evaluate.
Proof. right. right. by left. Qed.
Lemma probe_event_short : probe_event (SetTimeout 2000).
Proof. right. right. right. by left. Qed.
Lemma probe_event_long : probe_event (SetTimeout 3000).
Proof. right. right. right. by right. Qed.

Create HintDb probe.
Hint Resolve probe_event_container probe_event_item probe_event_evaluate
  probe_event_short probe_event_long : probe.

Lemma conj_last (A B C D : Prop) : D → A ∧ B ∧ C → A ∧ B ∧ C ∧ D.
Proof. tauto. Qed.

(** One attempt: exactly one wait for the container, only the calls of
    [probe_event], and either [return true] or on to the next turn. *)
Lemma probe_attempt_cases (maxAttempts attempt : nat) st :
  ∃ st' evs,
    trace st' = trace st ++ evs ∧ Forall probe_event evs ∧
    attempts_in evs = 1%nat ∧
    (probe_attempt maxAttempts attempt st = (Ok (Some true), st') ∨
     probe_attempt maxAttempts attempt st = (Ok None, st')).
Proof.
  unfold probe_attempt, try_catch.
  cbv [mbind M_bind mret M_ret perform page_evaluate sleep]. simpl.
  destruct (waitForSelector resultsContainerSelector 30000 (world st))
    as [[[]|e1] w1]; simpl;
    [destruct (waitForSelector ".ui-search-layout__item" 10000 w1)
       as [[[]|e2] w2]; simpl;
     [destruct (evaluate_call w2) as [[[]|e3] w3]; simpl;
      [case_bool_decide; simpl|]|]|];
    try case_bool_decide; simpl;
    eexists _, _;
    (apply conj_last; [first [left; reflexivity | right; reflexivity]|]);
    cbn [trace];
    (split; [rewrite <- ?app_assoc; reflexivity|]); simpl;
    (split; [repeat first [ apply List.Forall_nil
                          | apply List.Forall_cons;
                            [solve [auto with probe]|] ]|]);
    reflexivity.
Qed.

(** An attempt executes [return true] only on a page that holds at least
    one item when it returns. *)
Lemma probe_attempt_ready_has_items (maxAttempts attempt : nat) st st' :
  probe_attempt maxAttempts attempt st = (Ok (Some true), st') →
  (0 < length (querySelectorAll ".ui-search-layout__item" (world st')))%nat.
Proof.
  unfold probe_attempt, try_catch.
  cbv [mbind M_bind mret M_ret perform page_evaluate sleep]. simpl.
  destruct (waitForSelector resultsContainerSelector 30000 (world st))
    as [[[]|e1] w1]; simpl;
    [destruct (waitForSelector ".ui-search-layout__item" 10000 w1)
       as [[[]|e2] w2]; simpl;
     [destruct (evaluate_call w2) as [[[]|e3] w3]; simpl;
      [case_bool_decide; simpl|]|]|];
    try case_bool_decide; simpl; intros [= <-]; done.
Qed.

Lemma probe_from_cases (maxAttempts remaining attempt : nat) st :
  ∃ st' evs,
    trace st' = trace st ++ evs ∧ Forall probe_event evs ∧
    (attempts_in evs ≤ remaining)%nat ∧
    (probe_from maxAttempts attempt remaining st = (Ok true, st') ∨
     probe_from maxAttempts attempt remaining st =
       (Throw probe_failure, st')).
Proof.
  revert attempt st. induction remaining as [|n IH]; intros attempt st.
  - exists st, []. rewrite app_nil_r. repeat split; auto.
  - destruct (probe_attempt_cases maxAttempts attempt st)
      as (st1 & evs1 & Ht1 & He1 & Hn1 & [Hr|Hr]).
    + exists st1, evs1. split; [done|]. split; [done|].
      split; [lia|]. left. simpl. unfold mbind, M_bind. by rewrite Hr.
    + destruct (IH (S attempt) st1) as (st2 & evs2 & Ht2 & He2 & Hn2 & Hr2).
      exists st2, (evs1 ++ evs2). split; [by rewrite Ht2, Ht1, app_assoc|].
      split; [by apply Forall_app|].
      split; [rewrite attempts_in_app; lia|].
      simpl. unfold mbind, M_bind. by rewrite Hr.
Qed.

(** One attempt does what the spec says of it: the calls of
    [attempt_calls], then the delay of [retry_delay], and [return true]
    exactly when items are there. *)
Lemma probe_attempt_spec (maxAttempts attempt : nat) st :
  probe_attempt maxAttempts attempt st =
    (Ok (if found_items (look (world st)) then Some true else None),
     {| world := after_attempt maxAttempts attempt (look (world st));
        trace := trace st ++ attempt_events maxAttempts attempt (look (world st));
        sent := sent st; browser := browser st |}).
Proof.
  unfold probe_attempt, try_catch, look, after_attempt, attempt_events.
  cbv [mbind M_bind mret M_ret perform page_evaluate sleep
       resultsContainerSelector]. simpl.
  destruct (waitForSelector "ol.ui-search-layout" 30000 (world st))
    as [[[]|e1] w1]; simpl.
  1: destruct (waitForSelector ".ui-search-layout__item" 10000 w1)
       as [[[]|e2] w2]; simpl.
  1: destruct (evaluate_call w2) as [[[]|e3] w3]; simpl.
  all: repeat case_bool_decide; simpl; rewrite <- ?app_assoc; reflexivity.
Qed.

Lemma probe_from_none_ready (maxAttempts n m attempt : nat) st :
  none_ready maxAttempts attempt n (world st) = true →
  probe_from maxAttempts attempt (n + m) st =
  probe_from maxAttempts (attempt + n) m
    {| world := world_after maxAttempts attempt n (world st);
       trace := trace st ++ events_after maxAttempts attempt n (world st);
       sent := sent st; browser := browser st |}.
Proof.
  revert attempt st. induction n as [|n IH]; intros attempt st; simpl.
  - intros _. rewrite Nat.add_0_r, app_nil_r. by destruct st.
  - rewrite andb_true_iff, negb_true_iff. intros [Hnot Hrest].
    unfold mbind, M_bind. rewrite probe_attempt_spec, Hnot.
    rewrite IH by exact Hrest. cbn [world trace sent browser].
    rewrite <- app_assoc. f_equal. lia.
Qed.

Lemma attempts_in_events_after (maxAttempts n attempt : nat) (w : W) :
  attempts_in (events_after maxAttempts attempt n w) = n.
Proof.
  revert attempt w. induction n as [|n IH]; intros attempt w; simpl; [done|].
  rewrite attempts_in_app, IH. f_equal.
  unfold attempt_events. rewrite attempts_in_app.
  destruct (look w); simpl; repeat case_bool_decide; reflexivity.
Qed.

(** Items seen by [look] are items on the page: both waits have returned
    and the count is above zero. *)
Lemma look_items (w w' : W) :
  look w = SomeItems w' →
  (0 < length (querySelectorAll ".ui-search-layout__item" w'))%nat.
Proof.
  unfold look.
  destruct (waitForSelector "ol.ui-search-layout" 30000 w)
    as [[[]|e1] w1]; [|done].
  destruct (waitForSelector ".ui-search-layout__item" 10000 w1)
    as [[[]|e2] w2]; [|done].
  destruct (evaluate_call w2) as [[[]|e3] w3]; [|done].
  case_bool_decide; [|done]. by intros [= <-].
Qed.

End HelperFacts.

Section PipelineFacts.
Context {W H sel : Type} `{Puppeteer W H} `{Builtins} `{Cheerio sel}.
Implicit Types st : request_state W.

Lemma keeps_sent_set_browser : keeps_sent (W:=W) set_browser.
Proof. by intros st. Qed.

Lemma keeps_sent_open_page (searchUrl : jsstring) :
  keeps_sent (open_page searchUrl).
Proof.
  unfold open_page. keeps.
  all: first [ apply keeps_sent_set_browser
             | apply keeps_sent_handlePopupsAndOverlays ].
Qed.

Lemma keeps_sent_release : keeps_sent (W:=W) release.
Proof.
  intros st. unfold release. destruct (browser st); [|done].
  apply keeps_sent_perform.
Qed.

Lemma responds_last_respond (ps : list ProductRecord) :
  responds_last (W:=W) (respond 200 (ProductsBody ps)).
Proof. intros st. simpl. by exists ps. Qed.

Lemma responds_last_extract (env : gmap string jsstring) :
  responds_last (extract_and_respond (sel:=sel) env).
Proof.
  unfold extract_and_respond.
  apply responds_last_bind; [keeps|intros _].
  apply responds_last_bind; [keeps|intros html].
  apply responds_last_bind; [keeps|intros doc].
  apply responds_last_bind; [keeps|intros items].
  destruct (parse_products items) as [r parsed].
  apply responds_last_bind; [keeps|intros _].
  case_bool_decide; [apply responds_last_respond|].
  apply responds_last_bind; [keeps|intros _].
  apply responds_last_respond.
Qed.

Lemma responds_last_scrape (env : gmap string jsstring)
    (searchUrl : jsstring) :
  responds_last (scrape (sel:=sel) env searchUrl).
Proof.
  unfold scrape.
  apply responds_last_bind; [apply keeps_sent_open_page|intros _].
  apply responds_last_bind; [apply keeps_sent_waitForPageReady|intros _].
  apply responds_last_extract.
Qed.

(** What the handler does once the [try] block has thrown: the error
    response, then the release of the browser. *)
Lemma handler_after_throw (env : gmap string jsstring)
    (req_query : gmap string query_value) (encoded : jsstring)
    (error : js_error) st st1 :
  truthy (req_query !! "q") = true →
  encodeURIComponent (ToString (req_query !! "q")) = Ok encoded →
  scrape (sel:=sel) env (js "https://lista.mercadolivre.com.br/" ++ encoded) st
    = (Throw error, st1) →
  search_handler (sel:=sel) env req_query st =
    release (snd (on_error env error st1)).
Proof.
  intros Hq Henc Hscrape. unfold search_handler.
  rewrite Hq. cbn [negb]. unfold mbind, M_bind, lift. rewrite Henc.
  unfold try_finally, try_catch. rewrite Hscrape.
  destruct (on_error env error st1) as [[[]|err] st2] eqn:Herr;
    [|discriminate Herr].
  cbn [snd]. by destruct (release st2) as [[[]|err] st3].
Qed.

End PipelineFacts.

Section PipelineClaims.
Context {W H sel : Type} `{Puppeteer W H} `{Builtins} `{Cheerio sel}.
Implicit Types st : request_state W.

(** C4. The readiness probe makes at most [maxAttempts] attempts, 3 by
    default.  Each attempt waits 30 s for the container, then 10 s for an
    item, then counts the items, and is followed by a fixed delay of 2 s
    (no item counted) or 3 s (a wait timed out, and another attempt is
    left).  When no attempt up to the maximum finds items the probe
    throws, and the handler then goes straight to the error response and
    the release of the browser, without reading the page; when the page
    shows items on attempt [k + 1] after [k] attempts without, the probe
    returns [true] on that attempt, with no further call. *)
Theorem readiness_probe_bounded (maxAttempts : nat) st :
  default_maxAttempts = 3%nat ∧
  (∃ st' evs,
     trace st' = trace st ++ evs ∧ Forall probe_event evs ∧
     (attempts_in evs ≤ maxAttempts)%nat ∧
     (waitForPageReady maxAttempts st = (Ok true, st') ∨
      waitForPageReady maxAttempts st = (Throw probe_failure, st'))) ∧
  (∀ attempt,
     probe_attempt maxAttempts attempt st =
       (Ok (if found_items (look (world st)) then Some true else None),
        {| world := after_attempt maxAttempts attempt (look (world st));
           trace := trace st ++
                    attempt_events maxAttempts attempt (look (world st));
           sent := sent st; browser := browser st |})) ∧
  (none_ready maxAttempts 1 maxAttempts (world st) = true →
   waitForPageReady maxAttempts st =
     (Throw probe_failure,
      {| world := world_after maxAttempts 1 maxAttempts (world st);
         trace := trace st ++ events_after maxAttempts 1 maxAttempts (world st);
         sent := sent st; browser := browser st |}) ∧
   attempts_in (events_after maxAttempts 1 maxAttempts (world st))
     = maxAttempts) ∧
  (∀ k w,
     (k < maxAttempts)%nat →
     none_ready maxAttempts 1 k (world st) = true →
     look (world_after maxAttempts 1 k (world st)) = SomeItems w →
     waitForPageReady maxAttempts st =
       (Ok true,
        {| world := w;
           trace := trace st ++ events_after maxAttempts 1 k (world st) ++
                    [WaitForSelector "ol.ui-search-layout" 30000;
                     WaitForSelector ".ui-search-layout__item" 10000;
                     Evaluate];
           sent := sent st; browser := browser st |}) ∧
     attempts_in (events_after maxAttempts 1 k (world st)) = k ∧
     (0 < length (querySelectorAll ".ui-search-layout__item" w))%nat) ∧
  (∀ env req_query encoded st0 error st',
     truthy (req_query !! "q") = true →
     encodeURIComponent (ToString (req_query !! "q")) = Ok encoded →
     open_page (js "https://lista.mercadolivre.com.br/" ++ encoded) st0
       = (Ok (), st) →
     waitForPageReady default_maxAttempts st = (Throw error, st') →
     search_handler (sel:=sel) env req_query st0 =
       release (snd (on_error env error st')) ∧
     trace (snd (search_handler (sel:=sel) env req_query st0)) =
       trace st' ++ (if browser st' then [Close] else [])).
Proof.
  split; [reflexivity|]. split; [|split; [|split; [|split]]].
  - apply probe_from_cases.
  - intros attempt. apply probe_attempt_spec.
  - intros Hnone. split; [|apply attempts_in_events_after].
    unfold waitForPageReady.
    rewrite <- (Nat.add_0_r maxAttempts) at 2.
    by rewrite (probe_from_none_ready _ _ 0 _ _ Hnone).
  - intros k w Hk Hnone Hlook.
    split; [|split; [apply attempts_in_events_after | by eapply look_items]].
    unfold waitForPageReady.
    replace maxAttempts with (k + S (maxAttempts - S k))%nat at 2 by lia.
    rewrite (probe_from_none_ready _ _ _ _ _ Hnone).
    simpl. unfold mbind, M_bind. rewrite probe_attempt_spec.
    cbn [world trace sent browser]. rewrite Hlook.
    cbn. by rewrite <- app_assoc.
  - intros env req_query encoded st0 error st' Hq Henc Hopen Hprobe.
    assert (Hscrape :
      scrape (sel:=sel) env (js "https://lista.mercadolivre.com.br/" ++ encoded) st0
      = (Throw error, st')).
    { unfold scrape, mbind, M_bind. by rewrite Hopen, Hprobe. }
    rewrite (handler_after_throw env req_query encoded error st0 st' Hq Henc Hscrape).
    split; [done|]. unfold release, on_error, respond, modify. cbn [snd browser].
    destruct (browser st'); [|by rewrite app_nil_r].
    unfold perform. cbn [world trace]. by destruct (close (world st')).
Qed.

(** C6 (as amended). When the [try] block throws, the handler sends one
    response, with status 500 and the fixed error text; its [details]
    are the message of the error when NODE_ENV is "development" and the
    fixed text "Check server logs" in every other environment. *)
Theorem failure_response (env : gmap string jsstring)
    (req_query : gmap string query_value) (encoded : jsstring)
    (error : js_error) st st1 :
  truthy (req_query !! "q") = true →
  encodeURIComponent (ToString (req_query !! "q")) = Ok encoded →
  scrape (sel:=sel) env (js "https://lista.mercadolivre.com.br/" ++ encoded) st
    = (Throw error, st1) →
  sent (snd (search_handler (sel:=sel) env req_query st)) =
    sent st ++
    [{| status := 500;
        body := ErrorBody internal_error_message
                  (Some (if bool_decide (env !! "NODE_ENV" = Some (js "development"))
                         then message error
                         else js "Check server logs")) |}].
Proof.
  intros Hq Henc Hscrape.
  rewrite (handler_after_throw env req_query encoded error st st1 Hq Henc Hscrape).
  rewrite keeps_sent_release.
  pose proof (responds_last_scrape (sel:=sel) env
                (js "https://lista.mercadolivre.com.br/" ++ encoded) st) as Hlast.
  rewrite Hscrape in Hlast. unfold on_error, respond, modify.
  cbn [snd sent]. by rewrite Hlast.
Qed.

(** C9. A request whose [q] is missing or empty is answered with status
    400 and the message that [q] is required, and nothing else happens:
    no call is made to the browser. *)
Theorem missing_query_is_rejected (env : gmap string jsstring)
    (req_query : gmap string query_value) st :
  req_query !! "q" = None ∨ req_query !! "q" = Some (QString []) →
  search_handler (sel:=sel) env req_query st =
    (Ok (),
     {| world := world st; trace := trace st;
        sent := sent st ++
                [{| status := 400;
                    body := ErrorBody required_message None |}];
        browser := browser st |}) ∧
  trace (snd (search_handler (sel:=sel) env req_query st)) = trace st ∧
  Launch ∉ trace (snd (search_handler (sel:=sel) env req_query (start (world st)))).
Proof.
  intros Hq. unfold search_handler.
  assert (Hfalsy : truthy (req_query !! "q") = false)
    by (by destruct Hq as [-> | ->]).
  rewrite Hfalsy. cbn [negb]. split; [done|]. split; [done|].
  cbn. apply not_elem_of_nil.
Qed.

End PipelineClaims.

(** * The development run on the samples *)

(** Of the four sample nodes, the sponsored one and the one on which a
    selector throws are skipped; the other two come out in order. *)
Example parse_sample_listing :
  parse_products sample_listing =
    (Ok (),
     {| products := [record_of sample_fields; sample_no_cents_record];
        console :=
          [ProductLine 1 (js "iPhone 13") (f_price sample_fields)
             (f_permalink sample_fields);
           SkippingSponsored 2;
           ErrorParsing 3 (js "unsupported selector");
           ProductLine 4 (js "Capa") (price sample_no_cents_record)
             (permalink sample_no_cents_record)] |}).
Proof. by vm_compute. Qed.

(** No integer-part element: the price is 0 and no record comes out. *)
Example no_price_is_rejected :
  f_price <$> resolve_fields [sample_no_price] = Ok zero ∧
  candidate [sample_no_price] = None.
Proof. by vm_compute. Qed.

Example price_89 :
  price sample_no_cents_record = Number_of_Q false (89 # 1) ∧
  parseFloat (js "89.00") = parseFloat (js "89").
Proof. by vm_compute. Qed.

(** C5. On a page whose only overlay control is a visible button matched
    by the text "Aceitar", the dismisser clicks that button and returns 0:
    the click of the text pass is missing from the count. *)
Theorem text_click_is_not_counted :
  fst (handlePopupsAndOverlays (start page_accept_button)) = Ok 0%nat ∧
  clicked (world (snd (handlePopupsAndOverlays (start page_accept_button))))
    = [js "Aceitar"] ∧
  buttons (world (snd (handlePopupsAndOverlays (start page_accept_button))))
    = [(js "Aceitar", false)].
Proof. by vm_compute. Qed.

(** C6 (as stated) fails: with NODE_ENV set to "test", which is not
    production, the failure response carries the fixed text and not the
    message of the underlying error. *)
Lemma generic_detail_outside_production :
  env_test !! "NODE_ENV" ≠ Some (js "production") ∧
  fst (scrape (sel:=list stub) env_test iphone_url (start toy_page))
    = Throw probe_failure ∧
  sent (snd (search_handler (sel:=list stub) env_test iphone_query
               (start toy_page))) =
    [{| status := 500;
        body := ErrorBody internal_error_message
                  (Some (js "Check server logs")) |}] ∧
  js "Check server logs" ≠ message probe_failure.
Proof.
  split; [by vm_compute|]. split; [by vm_compute|].
  split; [by vm_compute|]. by vm_compute.
Qed.

Lemma record_pushed_iff_all_fields_witness :
  find [sample_item] ".ui-search-item--ad" = Ok [] ∧
  resolve_fields [sample_item] = Ok sample_fields ∧
  accepted sample_fields ∧
  products (snd (item_callback 0 [sample_item] empty_parse_state)) =
    [record_of sample_fields].
Proof.
  assert (Hads : find [sample_item] ".ui-search-item--ad" = Ok [])
    by reflexivity.
  assert (Hres : resolve_fields [sample_item] = Ok sample_fields)
    by (vm_compute; reflexivity).
  assert (Hacc : accepted sample_fields).
  { apply accepted_truthy. vm_compute. reflexivity. }
  split; [exact Hads|]. split; [exact Hres|]. split; [exact Hacc|].
  exact (proj1 (proj2 (record_pushed_iff_all_fields 0 [sample_item] []
                         sample_fields empty_parse_state Hads eq_refl Hres))
           Hacc).
Defined.

Lemma price_from_texts_witness :
  resolve_fields [sample_item] = Ok sample_fields ∧
  first_text [sample_item] ".andes-money-amount__fraction" = Ok (js "1.234") ∧
  first_text [sample_item] ".andes-money-amount__cents" = Ok (js "56") ∧
  f_price sample_fields = Number_of_Q false (123456 # 100) ∧
  f_price sample_fields = S754_finite false 5429652300748554 (-42).
Proof.
  assert (Hres : resolve_fields [sample_item] = Ok sample_fields)
    by (vm_compute; reflexivity).
  assert (Hit : first_text [sample_item] ".andes-money-amount__fraction"
                = Ok (js "1.234")) by reflexivity.
  assert (Hct : first_text [sample_item] ".andes-money-amount__cents"
                = Ok (js "56")) by reflexivity.
  split; [exact Hres|]. split; [exact Hit|]. split; [exact Hct|].
  destruct (price_from_texts [sample_item] sample_fields (js "1.234")
              (js "56") Hres Hit Hct) as (_ & _ & Hdec & _).
  split; [|reflexivity].
  rewrite Hdec.
  - apply Number_of_Q_proper. by vm_compute.
  - by vm_compute.
  - vm_compute. repeat constructor.
  - vm_compute. repeat constructor.
Defined.

Lemma sponsored_item_is_skipped_witness :
  find [sample_sponsored] ".ui-search-item--ad"
    = Ok [leaf "Patrocinado" []] ∧
  elements sample_listing =
    [[sample_item]] ++ [sample_sponsored] :: [[sample_broken]; [sample_no_cents]] ∧
  candidate [sample_sponsored] = None ∧
  products (snd (parse_products sample_listing)) =
    omap candidate [[sample_item]] ++
    omap candidate [[sample_broken]; [sample_no_cents]].
Proof.
  assert (Hads : find [sample_sponsored] ".ui-search-item--ad"
                 = Ok [leaf "Patrocinado" []]) by reflexivity.
  assert (Hels : elements sample_listing =
                 [[sample_item]] ++ [sample_sponsored]
                   :: [[sample_broken]; [sample_no_cents]]) by reflexivity.
  split; [exact Hads|]. split; [exact Hels|].
  refine (proj2 (sponsored_item_is_skipped 0 [sample_sponsored]
                   [leaf "Patrocinado" []] empty_parse_state sample_listing
                   [[sample_item]] [[sample_broken]; [sample_no_cents]]
                   Hads _ Hels)).
  simpl. lia.
Defined.

Lemma item_failure_is_isolated_witness :
  item_body 2 [sample_broken] empty_parse_state =
    (Throw (JsError (js "unsupported selector")), empty_parse_state) ∧
  elements sample_listing =
    [[sample_item]; [sample_sponsored]] ++ [sample_broken] :: [[sample_no_cents]] ∧
  fst (parse_products sample_listing) = Ok () ∧
  products (snd (parse_products sample_listing)) =
    omap candidate [[sample_item]; [sample_sponsored]] ++
    omap candidate [[sample_no_cents]].
Proof.
  assert (Hbody : item_body 2 [sample_broken] empty_parse_state =
            (Throw (JsError (js "unsupported selector")), empty_parse_state))
    by (vm_compute; reflexivity).
  assert (Hels : elements sample_listing =
                 [[sample_item]; [sample_sponsored]] ++ [sample_broken]
                   :: [[sample_no_cents]]) by reflexivity.
  split; [exact Hbody|]. split; [exact Hels|].
  exact (proj2 (item_failure_is_isolated 2 [sample_broken] empty_parse_state
                  empty_parse_state (JsError (js "unsupported selector"))
                  sample_listing [[sample_item]; [sample_sponsored]]
                  [[sample_no_cents]] Hbody Hels)).
Defined.

Lemma readiness_probe_bounded_witness :
  (2 < 3)%nat ∧
  none_ready 3 1 2 page_ready_third = true ∧
  look (world_after 3 1 2 page_ready_third) = SomeItems page_ready_third_seen ∧
  waitForPageReady 3 (start page_ready_third) =
    (Ok true,
     {| world := page_ready_third_seen;
        trace := [WaitForSelector "ol.ui-search-layout" 30000;
                  SetTimeout 3000;
                  WaitForSelector "ol.ui-search-layout" 30000;
                  WaitForSelector ".ui-search-layout__item" 10000;
                  Evaluate;
                  SetTimeout 2000;
                  WaitForSelector "ol.ui-search-layout" 30000;
                  WaitForSelector ".ui-search-layout__item" 10000;
                  Evaluate];
        sent := []; browser := false |}).
Proof.
  assert (Hk : (2 < 3)%nat) by lia.
  assert (Hnone : none_ready 3 1 2 (world (start page_ready_third)) = true)
    by (vm_compute; reflexivity).
  assert (Hlook : look (world_after 3 1 2 (world (start page_ready_third)))
                  = SomeItems page_ready_third_seen)
    by (vm_compute; reflexivity).
  split; [exact Hk|]. split; [exact Hnone|]. split; [exact Hlook|].
  destruct (readiness_probe_bounded (sel:=list stub) 3 (start page_ready_third))
    as (_ & _ & _ & _ & Hsucc & _).
  destruct (Hsucc 2%nat page_ready_third_seen Hk Hnone Hlook) as [Hrun _].
  rewrite Hrun. vm_compute. reflexivity.
Defined.

Lemma failure_response_witness :
  truthy (iphone_query !! "q") = true ∧
  encodeURIComponent (ToString (iphone_query !! "q")) = Ok (js "iPhone") ∧
  scrape (sel:=list stub) env_development
      (js "https://lista.mercadolivre.com.br/" ++ js "iPhone") (start toy_page)
    = (Throw probe_failure, state_probe_failed) ∧
  sent (snd (search_handler (sel:=list stub) env_development iphone_query
               (start toy_page))) =
    [{| status := 500;
        body := ErrorBody internal_error_message
                  (Some (message probe_failure)) |}].
Proof.
  assert (Hq : truthy (iphone_query !! "q") = true) by (vm_compute; reflexivity).
  assert (Henc : encodeURIComponent (ToString (iphone_query !! "q"))
                 = Ok (js "iPhone")) by (vm_compute; reflexivity).
  assert (Hscrape :
    scrape (sel:=list stub) env_development
      (js "https://lista.mercadolivre.com.br/" ++ js "iPhone") (start toy_page)
    = (Throw probe_failure, state_probe_failed)) by (vm_compute; reflexivity).
  split; [exact Hq|]. split; [exact Henc|]. split; [exact Hscrape|].
  exact (failure_response (sel:=list stub) env_development iphone_query
           (js "iPhone") probe_failure (start toy_page) state_probe_failed
           Hq Henc Hscrape).
Defined.

Lemma missing_query_is_rejected_witness :
  (∅ : gmap string query_value) !! "q" = None ∧
  search_handler (sel:=list stub) env_development ∅ (start toy_page) =
    (Ok (),
     {| world := toy_page; trace := [];
        sent := [{| status := 400;
                    body := ErrorBody required_message None |}];
        browser := false |}).
Proof.
  assert (Hq : (∅ : gmap string query_value) !! "q" = None) by reflexivity.
  split; [exact Hq|].
  exact (proj1 (missing_query_is_rejected (sel:=list stub) env_development ∅
                  (start toy_page) (or_introl Hq))).
Defined.

(** * Further properties of the extraction pass *)

Lemma js_or_Ok {A} `{Truthy A} (a b : result A) (x : A) :
  a ||| b = Ok x → a = Ok x ∨ b = Ok x.
Proof.
  unfold js_or. destruct a as [y|]; [|done].
  destruct (truthy y); [by left | by right].
Qed.

Lemma fmap_Ok {A B} (g : A → B) (r : result A) (y : B) :
  g <$> r = Ok y → ∃ x, r = Ok x ∧ y = g x.
Proof. destruct r as [x|]; [|done]. intros [= <-]. by exists x. Qed.

Lemma trimStart_suffix (s : jsstring) : trimStart s `suffix_of` s.
Proof.
  induction s as [|c s IH]; simpl; [done|].
  destruct (isWhiteSpace c); [by apply suffix_cons_r | done].
Qed.

Lemma trimStart_head (s : jsstring) :
  match trimStart s with c :: _ => isWhiteSpace c = false | [] => True end.
Proof.
  induction s as [|c s IH]; simpl; [done|].
  by destruct (isWhiteSpace c) eqn:Hc.
Qed.

Lemma trimEnd_prefix (s : jsstring) : trimEnd s `prefix_of` s.
Proof.
  unfold trimEnd. destruct (trimStart_suffix (reverse s)) as [k Hk].
  exists (reverse k). apply (f_equal reverse) in Hk.
  by rewrite reverse_involutive, reverse_app in Hk.
Qed.

Lemma trimEnd_last (s : jsstring) (c : N) :
  last (trimEnd s) = Some c → isWhiteSpace c = false.
Proof.
  unfold trimEnd. rewrite last_reverse.
  pose proof (trimStart_head (reverse s)) as Hh.
  destruct (trimStart (reverse s)); simpl; [done|]. by intros [= <-].
Qed.

(** [trim] leaves no white space at either end. *)
Lemma trim_ends (s : jsstring) :
  match trim s with c :: _ => isWhiteSpace c = false | [] => True end ∧
  ∀ c, last (trim s) = Some c → isWhiteSpace c = false.
Proof.
  unfold trim. split; [|apply trimEnd_last].
  pose proof (trimStart_head s) as Hh.
  destruct (trimEnd_prefix (trimStart s)) as [k Hk].
  destruct (trimEnd (trimStart s)) as [|c t]; [done|].
  rewrite Hk in Hh. exact Hh.
Qed.

Lemma normalize_permalink_cases (l : option jsstring) :
  normalize_permalink l = l ∧
  (∀ p, l = Some p → p = [] ∨ startsWith (js "http") p = true) ∨
  ∃ p, l = Some p ∧ p ≠ [] ∧ startsWith (js "http") p = false ∧
       normalize_permalink l = Some (origin ++ p).
Proof.
  destruct l as [p|]; [|by left].
  destruct p as [|c p]; [left; split; [done|]; intros ? [= <-]; by left|].
  unfold normalize_permalink.
  destruct (startsWith (js "http") (c :: p)) eqn:Hs; simpl.
  - left. split; [done|]. intros ? [= <-]. by right.
  - right. by exists (c :: p).
Qed.

Lemma normalize_permalink_http (l : option jsstring) (p : jsstring) :
  normalize_permalink l = Some p → p ≠ [] → startsWith (js "http") p = true.
Proof.
  destruct (normalize_permalink_cases l) as [[-> Hl]|(q & -> & _ & _ & ->)].
  - intros Hp Hne. by destruct (Hl p Hp).
  - by intros [= <-].
Qed.

(** X2. Making a link absolute is idempotent, and a non-empty link that
    comes out of it always starts with "http". *)
Theorem normalize_permalink_idempotent (l : option jsstring) :
  normalize_permalink (normalize_permalink l) = normalize_permalink l ∧
  ∀ p, normalize_permalink l = Some p → p ≠ [] →
       startsWith (js "http") p = true.
Proof.
  split; [|apply normalize_permalink_http].
  destruct (normalize_permalink_cases l) as [[Hl _]|(q & -> & _ & _ & Hn)].
  - by rewrite !Hl.
  - by rewrite Hn.
Qed.

Section ExtractionExtras.
Context {sel : Type} `{Cheerio sel}.

Lemma resolve_fields_inv (e : sel) (f : fields) :
  resolve_fields e = Ok f →
  title_of e = Ok (f_title f) ∧
  permalink_of e = Ok (f_permalink f) ∧
  thumbnail_of e = Ok (f_thumbnail f) ∧
  ∃ pf pc, priceFraction_of e = Ok pf ∧ priceCents_of e = Ok pc ∧
           f_price f = compose_price pf pc.
Proof.
  unfold resolve_fields.
  cbv [mbind result_bind mret result_ret].
  destruct (title_of e) as [t|]; [|done].
  destruct (priceFraction_of e) as [pf|]; [|done].
  destruct (priceCents_of e) as [pc|]; [|done].
  destruct (permalink_of e) as [l|]; [|done].
  destruct (thumbnail_of e) as [th|]; [|done].
  intros [= <-]. simpl. eauto 10.
Qed.

Lemma title_of_trimmed (e : sel) (t : jsstring) :
  title_of e = Ok t → ∃ x, t = trim x.
Proof.
  unfold title_of. intros Ht.
  repeat (apply js_or_Ok in Ht as [Ht|Ht]);
    apply fmap_Ok in Ht as (x & _ & ->); by exists x.
Qed.

Lemma candidate_inv (e : sel) (r : ProductRecord) :
  candidate e = Some r →
  ∃ f, resolve_fields e = Ok f ∧ accepted f ∧ r = record_of f.
Proof.
  unfold candidate.
  destruct (find e ".ui-search-item--ad") as [ads|]; [|done].
  case_bool_decide; [done|].
  destruct (resolve_fields e) as [f|]; [|done].
  destruct (truthy (f_title f) && gt_zero (f_price f) &&
            truthy (f_permalink f) && truthy (f_thumbnail f)) eqn:Hok; [|done].
  intros [= <-]. exists f. by rewrite accepted_truthy.
Qed.

Lemma candidate_record_valid (e : sel) (r : ProductRecord) :
  candidate e = Some r → valid_record r.
Proof.
  intros Hc.
  destruct (candidate_valid e r Hc) as (Ht & Hlen & Hp & Hl & Hth).
  split; [done|]. split; [done|]. split; [done|]. split; [|done].
  destruct (candidate_inv e r Hc) as (f & Hres & _ & ->).
  destruct Hl as (p & Hp' & Hne). exists p. split; [done|]. split; [done|].
  destruct (resolve_fields_inv e f Hres) as (_ & Hperm & _).
  unfold permalink_of in Hperm. apply fmap_Ok in Hperm as (x & _ & Hx).
  cbn [permalink record_of] in Hp'. rewrite Hx in Hp'.
  by apply (normalize_permalink_http x).
Qed.

(** X1. Whatever the page holds, every record the extraction pass puts
    out has a non-empty title of at most 200 code units, a price above
    zero, a non-empty permalink that starts with "http" and a non-empty
    thumbnail. *)
Theorem parsed_products_are_valid (items : sel) :
  Forall valid_record (products (snd (parse_products items))).
Proof.
  destruct (parse_products_candidate items) as [_ ->].
  apply Forall_forall. intros r Hr.
  apply list_elem_of_omap in Hr as (e & _ & Hc).
  by apply (candidate_record_valid e).
Qed.

(** X3. A title that comes out of the pass never starts with white space,
    and the title resolved for a node, before it is cut to 200 code units,
    does not end with white space either. *)
Theorem emitted_titles_are_trimmed (items : sel) :
  Forall (λ r, match title r with
               | c :: _ => isWhiteSpace c = false
               | [] => False
               end)
         (products (snd (parse_products items))) ∧
  ∀ e f c, resolve_fields e = Ok f → last (f_title f) = Some c →
           isWhiteSpace c = false.
Proof.
  split.
  - destruct (parse_products_candidate items) as [_ ->].
    apply Forall_forall. intros r Hr.
    apply list_elem_of_omap in Hr as (e & _ & Hc).
    destruct (candidate_inv e r Hc) as (f & Hres & (Hne & _) & ->).
    destruct (resolve_fields_inv e f Hres) as (Ht & _).
    apply title_of_trimmed in Ht as (x & Hx).
    cbn [title record_of]. unfold substring0.
    pose proof (proj1 (trim_ends x)) as Hh. rewrite <- Hx in Hh.
    by destruct (f_title f).
  - intros e f c Hres Hlast.
    destruct (resolve_fields_inv e f Hres) as (Ht & _).
    apply title_of_trimmed in Ht as (x & Hx). rewrite Hx in Hlast.
    by apply (proj2 (trim_ends x)).
Qed.

Lemma item_callback_logs (index : nat) (e : sel) (st : parse_state) :
  ∃ l, console (snd (item_callback index e st)) = console st ++ [l] ∧
       line_number l = (index + 1)%nat ∧
       length (products (snd (item_callback index e st))) =
         (length (products st) + (if is_product_line l then 1 else 0))%nat.
Proof.
  unfold item_callback, item_body, try_catch.
  cbv [mbind M_bind lift mret M_ret].
  destruct (find e ".ui-search-item--ad") as [ads|err]; simpl.
  - case_bool_decide; simpl.
    + eexists. split; [reflexivity|]. simpl. split; [done|]. lia.
    + destruct (resolve_fields e) as [f|err]; simpl.
      * unfold validate_and_push.
        destruct (truthy (f_title f) && gt_zero (f_price f) &&
                  truthy (f_permalink f) && truthy (f_thumbnail f)); simpl.
        -- eexists. split; [reflexivity|]. simpl. split; [done|].
           rewrite length_app. simpl. lia.
        -- eexists. split; [reflexivity|]. simpl. split; [done|]. lia.
      * eexists. split; [reflexivity|]. simpl. split; [done|]. lia.
  - eexists. split; [reflexivity|]. simpl. split; [done|]. lia.
Qed.

Lemma each_from_logs (els : list sel) (index : nat) (st : parse_state) :
  ∃ ls, console (snd (each_from item_callback index els st)) = console st ++ ls ∧
        line_number <$> ls = seq (index + 1) (length els) ∧
        length (products (snd (each_from item_callback index els st))) =
          (length (products st) + length (filter (λ l, is_product_line l = true) ls))%nat.
Proof.
  revert index st. induction els as [|e els IH]; intros index st.
  - exists []. simpl. rewrite app_nil_r. split; [done|]. split; [done|]. lia.
  - destruct (item_callback_candidate index e st) as (st1 & Hcb & _).
    destruct (item_callback_logs index e st) as (l & Hl & Hn & Hp).
    rewrite Hcb in Hl, Hp. cbn [snd] in Hl, Hp.
    destruct (IH (S index) st1) as (ls & Hls & Hns & Hps).
    simpl. cbv [mbind M_bind]. rewrite Hcb.
    exists (l :: ls). split; [by rewrite Hls, Hl, <- app_assoc|].
    split.
    + rewrite fmap_cons, Hn, Hns. simpl. repeat f_equal; lia.
    + rewrite Hps, Hp. destruct (is_product_line l) eqn:Hpl.
      * rewrite filter_cons_True by done. simpl. lia.
      * rewrite filter_cons_False by (by rewrite Hpl). lia.
Qed.

(** X4. The pass writes exactly one console line per item node, numbered
    1, 2, ... in document order, and the number of records it puts out is
    the number of product lines among them; every other node is accounted
    for by a skip or an error line. *)
Theorem one_console_line_per_item (items : sel) :
  line_number <$> console (snd (parse_products items)) =
    seq 1 (length (elements items)) ∧
  length (products (snd (parse_products items))) =
    length (filter (λ l, is_product_line l = true)
              (console (snd (parse_products items)))).
Proof.
  unfold parse_products, each.
  destruct (each_from_logs (elements items) 0 {| products := []; console := [] |})
    as (ls & Hls & Hns & Hps).
  rewrite Hls, Hps. simpl. done.
Qed.

End ExtractionExtras.

(** * Further properties of the browser helpers *)

Lemma bind_run {St A B} (c : M St A) (f : A → M St B) (st : St) :
  (c ≫= f) st =
  match c st with
  | (Ok a, st') => f a st'
  | (Throw error, st') => (Throw error, st')
  end.
Proof. reflexivity. Qed.

Lemma count_events_app (p : event → bool) (evs1 evs2 : list event) :
  count_events p (evs1 ++ evs2) =
  (count_events p evs1 + count_events p evs2)%nat.
Proof. unfold count_events. by rewrite filter_app, length_app. Qed.

Lemma queried_app (evs1 evs2 : list event) :
  queried (evs1 ++ evs2) = queried evs1 ++ queried evs2.
Proof. apply omap_app. Qed.

Lemma total_budget_app (evs1 evs2 : list event) :
  total_budget (evs1 ++ evs2) = total_budget evs1 + total_budget evs2.
Proof.
  unfold total_budget. induction evs1 as [|ev evs1 IH]; simpl; [done|].
  rewrite IH. lia.
Qed.

Section DismisserExtras.
Context {W H : Type} `{Puppeteer W H} `{Builtins}.
Implicit Types st : request_state W.

Lemma dismiss_event_short : dismiss_event (SetTimeout 500).
Proof. by left. Qed.
Lemma dismiss_event_long : dismiss_event (SetTimeout 1000).
Proof. right. by left. Qed.
Lemma dismiss_event_query s : dismiss_event (Query s).
Proof. right. right. left. by exists s. Qed.
Lemma dismiss_event_visible : dismiss_event IsVisible.
Proof. do 3 right. by left. Qed.
Lemma dismiss_event_click : dismiss_event Click.
Proof. do 4 right. by left. Qed.
Lemma dismiss_event_evaluate : dismiss_event Evaluate.
Proof. do 5 right. done. Qed.

Create HintDb dismiss.
Hint Resolve dismiss_event_short dismiss_event_long dismiss_event_query
  dismiss_event_visible dismiss_event_click dismiss_event_evaluate : dismiss.

(** One turn of the selector loop: it never throws, asks for its selector
    once, and adds one to the count only when it has called [click]. *)
Lemma popup_by_selector_cases (selector : string) (n : nat) st :
  ∃ n' st' evs,
    popup_by_selector selector n st = (Ok n', st') ∧
    (trace st' = trace st ++ evs ∧ sent st' = sent st ∧
     browser st' = browser st) ∧
    Forall dismiss_event evs ∧
    queried evs = [selector] ∧
    count_events is_evaluate evs = 0%nat ∧
    (n ≤ n' ∧ n' ≤ n + count_events is_click evs ∧
     count_events is_click evs ≤ 1)%nat ∧
    total_budget evs ≤ 1500.
Proof.
  unfold popup_by_selector, try_catch.
  cbv [mbind M_bind mret M_ret perform sleep]. simpl.
  destruct (query selector (setTimeout 500 (world st))) as [[[el|]|e1] w1];
    simpl.
  1: destruct (isVisible el w1) as [[[|]|e2] w2]; simpl.
  1: destruct (click el w2) as [[[]|e3] w3]; simpl.
  all: eexists _, _, _.
  all: (split; [reflexivity|]); cbn [trace sent browser].
  all: (split; [split; [rewrite <- ?app_assoc; reflexivity|done]|]); simpl.
  all: (split; [repeat first [ apply List.Forall_nil
                             | apply List.Forall_cons;
                               [solve [auto with dismiss]|] ]|]).
  all: (split; [reflexivity|]); (split; [reflexivity|]).
  all: (split; [cbv [count_events is_click filter]; simpl; lia|]).
  all: by vm_compute.
Qed.

Lemma popups_by_selector_cases (selectors : list string) (n : nat) st :
  ∃ n' st' evs,
    popups_by_selector selectors n st = (Ok n', st') ∧
    (trace st' = trace st ++ evs ∧ sent st' = sent st ∧
     browser st' = browser st) ∧
    Forall dismiss_event evs ∧
    queried evs = selectors ∧
    count_events is_evaluate evs = 0%nat ∧
    (n ≤ n' ∧ n' ≤ n + count_events is_click evs ∧
     count_events is_click evs ≤ length selectors)%nat ∧
    total_budget evs ≤ 1500 * Z.of_nat (length selectors).
Proof.
  revert n st. induction selectors as [|s l IH]; intros n st.
  - exists n, st, []. rewrite app_nil_r. simpl.
    repeat split; try done; lia.
  - destruct (popup_by_selector_cases s n st)
      as (n1 & st1 & evs1 & Hr1 & (Ht1 & Hs1 & Hb1) & He1 & Hq1 & Hv1 & Hn1 & Hbud1).
    destruct (IH n1 st1)
      as (n2 & st2 & evs2 & Hr2 & (Ht2 & Hs2 & Hb2) & He2 & Hq2 & Hv2 & Hn2 & Hbud2).
    exists n2, st2, (evs1 ++ evs2).
    split; [simpl; by rewrite bind_run, Hr1|].
    split; [by rewrite Ht2, Ht1, Hs2, Hs1, Hb2, Hb1, app_assoc|].
    split; [by apply Forall_app|].
    split; [by rewrite queried_app, Hq1, Hq2|].
    split; [rewrite count_events_app; lia|].
    split; [rewrite count_events_app; simpl; lia|].
    rewrite total_budget_app. simpl length. lia.
Qed.

(** One turn of the text loop: it never throws and runs one function in
    the page. *)
Lemma popup_by_text_cases (text : string) st :
  ∃ st' evs,
    try_catch (page_evaluate (click_button_with_text (js text));; sleep 500)
              (λ error, mret ()) st = (Ok (), st') ∧
    (trace st' = trace st ++ evs ∧ sent st' = sent st ∧
     browser st' = browser st) ∧
    Forall dismiss_event evs ∧
    queried evs = [] ∧
    count_events is_evaluate evs = 1%nat ∧
    count_events is_click evs = 0%nat ∧
    total_budget evs ≤ 500.
Proof.
  unfold try_catch.
  cbv [mbind M_bind mret M_ret perform page_evaluate sleep]. simpl.
  destruct (evaluate_call (world st)) as [[[]|e1] w1]; simpl.
  1: destruct (click_button_with_text (js text) w1) as [b w2]; simpl.
  all: eexists _, _.
  all: (split; [reflexivity|]); cbn [trace sent browser].
  all: (split; [split; [rewrite <- ?app_assoc; reflexivity|done]|]); simpl.
  all: (split; [repeat first [ apply List.Forall_nil
                             | apply List.Forall_cons;
                               [solve [auto with dismiss]|] ]|]).
  all: by vm_compute.
Qed.

Lemma popups_by_text_cases (entries : list (string * string)) st :
  ∃ st' evs,
    popups_by_text entries st = (Ok (), st') ∧
    (trace st' = trace st ++ evs ∧ sent st' = sent st ∧
     browser st' = browser st) ∧
    Forall dismiss_event evs ∧
    queried evs = [] ∧
    count_events is_evaluate evs = length entries ∧
    count_events is_click evs = 0%nat ∧
    total_budget evs ≤ 500 * Z.of_nat (length entries).
Proof.
  revert st. induction entries as [|[text description] l IH]; intros st.
  - exists st, []. rewrite app_nil_r. simpl.
    repeat split; done.
  - destruct (popup_by_text_cases text st)
      as (st1 & evs1 & Hr1 & (Ht1 & Hs1 & Hb1) & He1 & Hq1 & Hv1 & Hc1 & Hbud1).
    destruct (IH st1)
      as (st2 & evs2 & Hr2 & (Ht2 & Hs2 & Hb2) & He2 & Hq2 & Hv2 & Hc2 & Hbud2).
    exists st2, (evs1 ++ evs2).
    split; [simpl; by rewrite bind_run, Hr1|].
    split; [by rewrite Ht2, Ht1, Hs2, Hs1, Hb2, Hb1, app_assoc|].
    split; [by apply Forall_app|].
    split; [by rewrite queried_app, Hq1, Hq2|].
    split; [rewrite count_events_app; simpl; lia|].
    split; [rewrite count_events_app; lia|].
    rewrite total_budget_app. simpl length. lia.
Qed.

Lemma handlePopupsAndOverlays_cases st :
  ∃ n st' evs,
    handlePopupsAndOverlays st = (Ok n, st') ∧
    (trace st' = trace st ++ evs ∧ sent st' = sent st ∧
     browser st' = browser st) ∧
    Forall dismiss_event evs ∧
    queried evs = popupSelectors ∧
    count_events is_evaluate evs = 5%nat ∧
    (n ≤ count_events is_click evs ∧ count_events is_click evs ≤ 20)%nat ∧
    total_budget evs ≤ 32500.
Proof.
  destruct (popups_by_selector_cases popupSelectors 0 st)
    as (n & st1 & evs1 & Hr1 & (Ht1 & Hs1 & Hb1) & He1 & Hq1 & Hv1 & Hn1 & Hbud1).
  destruct (popups_by_text_cases textBasedSelectors st1)
    as (st2 & evs2 & Hr2 & (Ht2 & Hs2 & Hb2) & He2 & Hq2 & Hv2 & Hc2 & Hbud2).
  exists n, st2, (evs1 ++ evs2).
  split.
  { unfold handlePopupsAndOverlays. rewrite bind_run, Hr1, bind_run.
    unfold try_catch. by rewrite Hr2. }
  split; [by rewrite Ht2, Ht1, Hs2, Hs1, Hb2, Hb1, app_assoc|].
  split; [by apply Forall_app|].
  split; [by rewrite queried_app, Hq1, Hq2, app_nil_r|].
  split; [rewrite count_events_app, Hv1, Hv2; reflexivity|].
  split; [rewrite count_events_app; simpl in Hn1; lia|].
  rewrite total_budget_app. simpl length in *. lia.
Qed.

(** X5. The overlay dismisser never throws, whatever the page does: an
    error on one rule does not stop the scan.  It asks the page for every
    selector of its list exactly once, in the order of the list, and then
    runs its five text searches; it sends no response. *)
Theorem dismisser_scans_whole_catalog st :
  ∃ n st' evs,
    handlePopupsAndOverlays st = (Ok n, st') ∧
    trace st' = trace st ++ evs ∧
    queried evs = popupSelectors ∧
    count_events is_evaluate evs = length textBasedSelectors ∧
    sent st' = sent st.
Proof.
  destruct (handlePopupsAndOverlays_cases st)
    as (n & st' & evs & Hr & (Ht & Hs & _) & _ & Hq & Hv & _).
  exists n, st', evs. by rewrite Hv.
Qed.

(** X6. The count the dismisser returns never exceeds the number of
    [click] calls it made, which is at most one per selector of the list:
    with no click the count is 0, and it is never above 20. *)
Theorem dismisser_count_bounded st :
  ∃ n evs,
    fst (handlePopupsAndOverlays st) = Ok n ∧
    trace (snd (handlePopupsAndOverlays st)) = trace st ++ evs ∧
    (n ≤ count_events is_click evs)%nat ∧
    (count_events is_click evs ≤ length popupSelectors)%nat ∧
    (n ≤ 20)%nat.
Proof.
  destruct (handlePopupsAndOverlays_cases st)
    as (n & st' & evs & Hr & (Ht & _) & _ & _ & _ & (Hn & Hc) & _).
  exists n, evs. rewrite Hr. simpl. repeat split; try done. lia.
Qed.

(** X7. One run of the dismisser keeps the script waiting for at most
    32.5 s in all: 20 rules at 0.5 s plus 1 s after a click, and 0.5 s
    after each of the 5 text searches. *)
Theorem dismisser_wait_bounded st :
  ∃ evs,
    trace (snd (handlePopupsAndOverlays st)) = trace st ++ evs ∧
    Forall dismiss_event evs ∧
    total_budget evs ≤ 32500.
Proof.
  destruct (handlePopupsAndOverlays_cases st)
    as (n & st' & evs & Hr & (Ht & _) & He & _ & _ & _ & Hbud).
  exists evs. by rewrite Hr.
Qed.

End DismisserExtras.

(** * Further properties of the readiness probe and of the route *)

Section EmitsFacts.
Context {W : Type}.
Implicit Types st : request_state W.

Lemma emits_ret {A} (P : event → Prop) (a : A) : emits (W:=W) P (mret a).
Proof. intros st. split; [done|]. exists []. by rewrite app_nil_r. Qed.

Lemma emits_lift {A} (P : event → Prop) (r : result A) :
  emits (W:=W) P (lift r).
Proof. intros st. split; [done|]. exists []. by rewrite app_nil_r. Qed.

Lemma emits_bind {A B} (P : event → Prop) (c : M (request_state W) A)
    (f : A → M (request_state W) B) :
  emits P c → (∀ a, emits P (f a)) → emits P (c ≫= f).
Proof.
  intros Hc Hf st. rewrite bind_run.
  destruct (Hc st) as (Hb & evs & Ht & He).
  destruct (c st) as [[a|err] st1]; simpl in *; [|eauto].
  destruct (Hf a st1) as (Hb2 & evs2 & Ht2 & He2).
  split; [congruence|]. exists (evs ++ evs2).
  split; [by rewrite Ht2, Ht, app_assoc | by apply Forall_app].
Qed.

Lemma emits_try_catch {A} (P : event → Prop) (c : M (request_state W) A)
    (h : js_error → M (request_state W) A) :
  emits P c → (∀ e, emits P (h e)) → emits P (try_catch c h).
Proof.
  intros Hc Hh st. unfold try_catch.
  destruct (Hc st) as (Hb & evs & Ht & He).
  destruct (c st) as [[a|err] st1]; simpl in *; [eauto|].
  destruct (Hh err st1) as (Hb2 & evs2 & Ht2 & He2).
  split; [congruence|]. exists (evs ++ evs2).
  split; [by rewrite Ht2, Ht, app_assoc | by apply Forall_app].
Qed.

Lemma emits_weaken {A} (P Q : event → Prop) (c : M (request_state W) A) :
  (∀ ev, P ev → Q ev) → emits P c → emits Q c.
Proof.
  intros HPQ Hc st. destruct (Hc st) as (Hb & evs & Ht & He).
  split; [done|]. exists evs. split; [done|]. by eapply Forall_impl.
Qed.

Lemma responds_with_bind {A B} (Q : list ProductRecord → Prop)
    (c : M (request_state W) A) (f : A → M (request_state W) B) :
  keeps_sent c → (∀ a, responds_with Q (f a)) → responds_with Q (c ≫= f).
Proof.
  intros Hc Hf st. rewrite bind_run.
  specialize (Hc st). destruct (c st) as [[a|err] st1]; simpl in *.
  - specialize (Hf a st1). destruct (f a st1) as [[b|err] st2];
      by rewrite <- Hc.
  - done.
Qed.

End EmitsFacts.

Section ProbeExtras.
Context {W H : Type} `{Puppeteer W H} `{Builtins}.
Implicit Types st : request_state W.

Lemma emits_perform {A} (P : event → Prop) (ev : event) (op : M W A) :
  P ev → emits P (perform ev op).
Proof.
  intros HP st. unfold perform. destruct (op (world st)) as [r w]. simpl.
  split; [done|]. exists [ev]. split; [done|]. by constructor.
Qed.

Lemma emits_probe_attempt (maxAttempts attempt : nat) :
  emits probe_event (probe_attempt maxAttempts attempt).
Proof.
  unfold probe_attempt.
  repeat first
    [ apply emits_ret
    | apply emits_perform;
      first [ apply probe_event_container | apply probe_event_item
            | apply probe_event_evaluate | apply probe_event_short
            | apply probe_event_long ]
    | apply emits_bind; [|intros ?]
    | apply emits_try_catch; [|intros ?]
    | match goal with
      | |- emits _ (if ?b then _ else _) => destruct b
      end ].
Qed.

Lemma emits_waitForPageReady (maxAttempts : nat) :
  emits probe_event (waitForPageReady maxAttempts).
Proof.
  unfold waitForPageReady. generalize 1%nat at 1. generalize maxAttempts at 2.
  intros remaining. induction remaining as [|n IH]; intros attempt; simpl.
  - apply emits_lift.
  - apply emits_bind; [apply emits_probe_attempt|].
    intros [v|]; [apply emits_ret | apply IH].
Qed.

(** One attempt keeps the script waiting for at most 43 s: 30 s for the
    container, 10 s for an item, and one sleep of 2 s or 3 s. *)
Lemma probe_attempt_budget (maxAttempts attempt : nat) st :
  ∃ evs, trace (snd (probe_attempt maxAttempts attempt st)) = trace st ++ evs ∧
         total_budget evs ≤ 43000.
Proof.
  unfold probe_attempt, try_catch.
  cbv [mbind M_bind mret M_ret perform page_evaluate sleep]. simpl.
  destruct (waitForSelector resultsContainerSelector 30000 (world st))
    as [[[]|e1] w1]; simpl.
  1: destruct (waitForSelector ".ui-search-layout__item" 10000 w1)
       as [[[]|e2] w2]; simpl.
  1: destruct (evaluate_call w2) as [[[]|e3] w3]; simpl.
  all: repeat case_bool_decide; simpl.
  all: eexists; (split; [rewrite <- ?app_assoc; reflexivity|]).
  all: by vm_compute.
Qed.

Lemma probe_from_budget (maxAttempts remaining attempt : nat) st :
  ∃ evs,
    trace (snd (probe_from maxAttempts attempt remaining st)) = trace st ++ evs ∧
    total_budget evs ≤ 43000 * Z.of_nat remaining.
Proof.
  revert attempt st. induction remaining as [|n IH]; intros attempt st.
  - exists []. simpl. by rewrite app_nil_r.
  - destruct (probe_attempt_budget maxAttempts attempt st) as (evs1 & Ht1 & Hb1).
    simpl. rewrite bind_run.
    destruct (probe_attempt maxAttempts attempt st) as [[[v|]|err] st1];
      simpl in *.
    + exists evs1. split; [done|]. lia.
    + destruct (IH (S attempt) st1) as (evs2 & Ht2 & Hb2).
      exists (evs1 ++ evs2). rewrite total_budget_app.
      split; [by rewrite Ht2, Ht1, app_assoc | lia].
    + exists evs1. split; [done|]. lia.
Qed.

(** X8. The readiness probe keeps the script waiting for at most 43 s per
    attempt: at most 129 s in all with the default of 3 attempts.  With
    [maxAttempts] 0 it throws at once without a call to the page. *)
Theorem readiness_probe_wait_bounded (maxAttempts : nat) st :
  (∃ evs,
     trace (snd (waitForPageReady maxAttempts st)) = trace st ++ evs ∧
     total_budget evs ≤ 43000 * Z.of_nat maxAttempts) ∧
  (∃ evs,
     trace (snd (waitForPageReady default_maxAttempts st)) = trace st ++ evs ∧
     total_budget evs ≤ 129000) ∧
  waitForPageReady 0 st = (Throw probe_failure, st).
Proof.
  split; [apply probe_from_budget|]. split; [|done].
  destruct (probe_from_budget default_maxAttempts default_maxAttempts 1 st)
    as (evs & Ht & Hb).
  exists evs. split; [done|]. exact Hb.
Qed.

End ProbeExtras.

Section RouteExtras.
Context {W H sel : Type} `{Puppeteer W H} `{Builtins} `{Cheerio sel}.
Implicit Types st : request_state W.

Lemma emits_respond (P : event → Prop) (s : Z) (b : response_body) :
  emits (W:=W) P (respond s b).
Proof. intros st. split; [done|]. exists []. by rewrite app_nil_r. Qed.

Lemma emits_handlePopupsAndOverlays :
  emits dismiss_event handlePopupsAndOverlays.
Proof.
  intros st. destruct (handlePopupsAndOverlays_cases st)
    as (n & st' & evs & -> & (Ht & _ & Hb) & He & _).
  split; [done|]. by exists evs.
Qed.

Lemma emits_open_page_rest (searchUrl : jsstring) :
  emits (setup_event searchUrl) (open_page_rest searchUrl).
Proof.
  unfold open_page_rest.
  repeat first
    [ apply emits_ret
    | apply (emits_weaken dismiss_event);
      [ intros ev Hev; by do 5 right | apply emits_handlePopupsAndOverlays ]
    | apply emits_perform; unfold setup_event; tauto
    | apply emits_bind; [|intros ?] ].
Qed.

Lemma emits_extract_and_respond (env : gmap string jsstring) :
  emits (extract_event env) (extract_and_respond (sel:=sel) env).
Proof.
  unfold extract_and_respond.
  destruct (not_production env) eqn:Hnp.
  all: repeat first
    [ apply emits_ret | apply emits_lift | apply emits_respond
    | apply emits_perform; unfold extract_event; tauto
    | apply emits_bind; [|intros ?]
    | match goal with
      | |- emits _ (let '(_, _) := ?x in _) => destruct x
      | |- emits _ (if ?b then _ else _) => destruct b
      end ].
Qed.

Lemma emits_scrape_rest (env : gmap string jsstring) (searchUrl : jsstring) :
  emits (pipeline_event env searchUrl) (scrape_rest (sel:=sel) env searchUrl).
Proof.
  unfold scrape_rest.
  apply emits_bind; [|intros _; apply emits_bind; [|intros _]].
  - apply (emits_weaken (setup_event searchUrl)); [by left|].
    apply emits_open_page_rest.
  - apply (emits_weaken probe_event); [intros ev Hev; right; by left|].
    apply emits_waitForPageReady.
  - apply (emits_weaken (extract_event env)); [intros ev Hev; right; by right|].
    apply emits_extract_and_respond.
Qed.

Lemma responds_with_respond (Q : list ProductRecord → Prop)
    (ps : list ProductRecord) :
  Q ps → responds_with (W:=W) Q (respond 200 (ProductsBody ps)).
Proof. intros HQ st. simpl. by exists ps. Qed.

Lemma responds_with_extract (env : gmap string jsstring) :
  responds_with (Forall valid_record) (extract_and_respond (sel:=sel) env).
Proof.
  unfold extract_and_respond.
  apply responds_with_bind; [keeps|intros _].
  apply responds_with_bind; [keeps|intros html].
  apply responds_with_bind; [keeps|intros doc].
  apply responds_with_bind; [keeps|intros items].
  assert (Hvalid : Forall valid_record (products (snd (parse_products items)))).
  { destruct (parse_products_candidate items) as [_ ->].
    apply Forall_forall. intros r Hr.
    apply list_elem_of_omap in Hr as (e & _ & Hc).
    by apply (candidate_record_valid e). }
  destruct (parse_products items) as [r parsed].
  apply responds_with_bind; [keeps|intros _].
  case_bool_decide; [by apply responds_with_respond|].
  apply responds_with_bind; [keeps|intros _].
  by apply responds_with_respond.
Qed.

Lemma responds_with_scrape (env : gmap string jsstring)
    (searchUrl : jsstring) :
  responds_with (Forall valid_record) (scrape (sel:=sel) env searchUrl).
Proof.
  unfold scrape.
  apply responds_with_bind; [apply keeps_sent_open_page|intros _].
  apply responds_with_bind; [apply keeps_sent_waitForPageReady|intros _].
  apply responds_with_extract.
Qed.

Lemma scrape_run (env : gmap string jsstring) (searchUrl : jsstring) st :
  scrape (sel:=sel) env searchUrl st =
  match launch (world st) with
  | (Ok _, w) => scrape_rest (sel:=sel) env searchUrl (launched st w)
  | (Throw error, w) =>
      (Throw error,
       {| world := w; trace := trace st ++ [Launch]; sent := sent st;
          browser := browser st |})
  end.
Proof.
  unfold scrape, open_page, scrape_rest, open_page_rest, launched.
  rewrite !bind_run. unfold perform at 1.
  destruct (launch (world st)) as [[[]|err] w]; reflexivity.
Qed.

Lemma search_handler_run (env : gmap string jsstring)
    (req_query : gmap string query_value) (encoded : jsstring) st :
  truthy (req_query !! "q") = true →
  encodeURIComponent (ToString (req_query !! "q")) = Ok encoded →
  search_handler (sel:=sel) env req_query st =
  try_finally
    (try_catch
       (scrape (sel:=sel) env (js "https://lista.mercadolivre.com.br/" ++ encoded))
       (on_error env))
    release st.
Proof.
  intros Hq Henc. unfold search_handler. rewrite Hq. cbn [negb].
  rewrite bind_run. unfold lift. by rewrite Henc.
Qed.

Lemma try_finally_release_sent {A} (c : M (request_state W) A) st :
  sent (snd (try_finally c release st)) = sent (snd (c st)).
Proof.
  unfold try_finally. destruct (c st) as [r st1]. simpl.
  pose proof (keeps_sent_release (W:=W) st1) as Hk.
  by destruct (release st1) as [[[]|err] st2].
Qed.

Lemma dismiss_event_inv (ev : event) :
  dismiss_event ev →
  ev ≠ Launch ∧ ev ≠ Close ∧ ev ≠ Content ∧
  (∀ u, ev ≠ Goto u) ∧ (∀ n, ev ≠ WriteFileSync n).
Proof.
  intros [->|[->|[[s ->]|[->|[->| ->]]]]]; repeat split; done.
Qed.

Lemma probe_event_inv (ev : event) :
  probe_event ev →
  ev ≠ Launch ∧ ev ≠ Close ∧ ev ≠ Content ∧
  (∀ u, ev ≠ Goto u) ∧ (∀ n, ev ≠ WriteFileSync n).
Proof.
  intros [->|[->|[->|[->| ->]]]]; repeat split; done.
Qed.

Lemma setup_event_inv (searchUrl : jsstring) (ev : event) :
  setup_event searchUrl ev →
  ev ≠ Launch ∧ ev ≠ Close ∧ ev ≠ Content ∧
  (∀ u, ev = Goto u → u = searchUrl) ∧ (∀ n, ev ≠ WriteFileSync n).
Proof.
  intros [->|[->|[->|[->|[->|Hd]]]]];
    try (repeat split; (done || by intros ? [= <-])).
  destruct (dismiss_event_inv ev Hd) as (? & ? & ? & Hg & ?).
  repeat split; try done. intros u ->. by destruct (Hg u).
Qed.

Lemma pipeline_event_inv (env : gmap string jsstring)
    (searchUrl : jsstring) (ev : event) :
  pipeline_event env searchUrl ev →
  ev ≠ Launch ∧ ev ≠ Close ∧
  (∀ u, ev = Goto u → u = searchUrl) ∧
  (∀ n, ev = WriteFileSync n → not_production env = true).
Proof.
  intros [Hs|[Hp|[->|[Hnp [->| ->]]]]].
  - destruct (setup_event_inv _ _ Hs) as (? & ? & ? & Hg & Hw).
    repeat split; try done. intros n ->. by destruct (Hw n).
  - destruct (probe_event_inv _ Hp) as (? & ? & ? & Hg & Hw).
    repeat split; try done.
    + intros u ->. by destruct (Hg u).
    + intros n ->. by destruct (Hw n).
  - repeat split; done.
  - repeat split; done.
  - repeat split; done.
Qed.

(** The route once [launch] has resolved: the rest of the [try] block
    runs, an error adds the error response, and [close] is the last call. *)
Lemma handler_after_launch (env : gmap string jsstring)
    (req_query : gmap string query_value) (encoded : jsstring) st (w : W) :
  truthy (req_query !! "q") = true →
  encodeURIComponent (ToString (req_query !! "q")) = Ok encoded →
  launch (world st) = (Ok (), w) →
  trace (snd (search_handler (sel:=sel) env req_query st)) =
    trace (snd (scrape_rest (sel:=sel) env (search_url encoded) (launched st w)))
    ++ [Close] ∧
  sent (snd (search_handler (sel:=sel) env req_query st)) =
    sent (snd (scrape_rest (sel:=sel) env (search_url encoded) (launched st w)))
    ++ match fst (scrape_rest (sel:=sel) env (search_url encoded) (launched st w)) with
       | Ok _ => []
       | Throw error => [error_response env error]
       end.
Proof.
  intros Hq Henc Hlaunch.
  rewrite (search_handler_run env req_query encoded st Hq Henc).
  unfold try_finally, try_catch. fold (search_url encoded).
  rewrite scrape_run, Hlaunch.
  destruct (emits_scrape_rest env (search_url encoded) (launched st w))
    as (Hb & _).
  destruct (scrape_rest env (search_url encoded) (launched st w))
    as [[[]|err] st2]; simpl in *.
  - unfold release. rewrite Hb. unfold perform.
    destruct (close (world st2)) as [[[]|err] w2]; simpl;
      by rewrite app_nil_r.
  - unfold release. simpl. rewrite Hb. unfold perform. simpl.
    destruct (close (world st2)) as [[[]|err2] w2]; simpl; done.
Qed.

(** The route when [launch] throws: the error response is sent and, from
    a fresh request, nothing is closed. *)
Lemma handler_launch_throws (env : gmap string jsstring)
    (req_query : gmap string query_value) (encoded : jsstring) st (w : W)
    (error : js_error) :
  truthy (req_query !! "q") = true →
  encodeURIComponent (ToString (req_query !! "q")) = Ok encoded →
  launch (world st) = (Throw error, w) →
  browser st = false →
  search_handler (sel:=sel) env req_query st =
    (Ok (),
     {| world := w; trace := trace st ++ [Launch];
        sent := sent st ++ [error_response env error]; browser := false |}).
Proof.
  intros Hq Henc Hlaunch Hb.
  rewrite (search_handler_run env req_query encoded st Hq Henc).
  unfold try_finally, try_catch. fold (search_url encoded).
  rewrite scrape_run, Hlaunch. simpl. unfold release. simpl.
  by rewrite Hb.
Qed.

(** X9. Whenever the query can be encoded, the route sends exactly one
    response: status 400 with the required-parameter message, status 200
    with a list of records that all have their four fields, or status 500
    with the fixed error text. *)
Theorem handler_sends_one_response (env : gmap string jsstring)
    (req_query : gmap string query_value) st :
  truthy (req_query !! "q") = false ∨
  (∃ encoded, encodeURIComponent (ToString (req_query !! "q")) = Ok encoded) →
  ∃ r,
    sent (snd (search_handler (sel:=sel) env req_query st)) = sent st ++ [r] ∧
    ((status r = 400 ∧ body r = ErrorBody required_message None) ∨
     (status r = 200 ∧ ∃ ps, body r = ProductsBody ps ∧ Forall valid_record ps) ∨
     (status r = 500 ∧ ∃ d, body r = ErrorBody internal_error_message (Some d))).
Proof.
  intros Hcase. destruct (truthy (req_query !! "q")) eqn:Hq.
  - destruct Hcase as [|[encoded Henc]]; [done|].
    rewrite (search_handler_run env req_query encoded st Hq Henc).
    rewrite try_finally_release_sent. unfold try_catch.
    pose proof (responds_with_scrape env (search_url encoded) st) as Hlast.
    unfold search_url in Hlast.
    destruct (scrape env _ st) as [[[]|err] st1]; simpl.
    + destruct Hlast as (ps & -> & Hvalid). eexists. split; [done|].
      right. left. simpl. eauto.
    + rewrite Hlast. eexists. split; [done|]. right. right. simpl. eauto.
  - unfold search_handler. rewrite Hq. simpl. eexists. split; [done|].
    by left.
Qed.

(** X10. A query that cannot be encoded makes the route throw before its
    [try] block: no response is sent and the browser is not touched. *)
Theorem unencodable_query_is_not_answered (env : gmap string jsstring)
    (req_query : gmap string query_value) (error : js_error) st :
  truthy (req_query !! "q") = true →
  encodeURIComponent (ToString (req_query !! "q")) = Throw error →
  search_handler (sel:=sel) env req_query st = (Throw error, st).
Proof.
  intros Hq Henc. unfold search_handler. rewrite Hq. cbn [negb].
  rewrite bind_run. unfold lift. by rewrite Henc.
Qed.

(** X11. On a fresh request the browser is closed exactly when it was
    launched: if [launch] resolves, [close] is the last call the route
    makes and the only [close]; if [launch] throws, the route makes no
    other call and answers with the error response. *)
Theorem browser_closed_iff_launched (env : gmap string jsstring)
    (req_query : gmap string query_value) (encoded : jsstring) st :
  truthy (req_query !! "q") = true →
  encodeURIComponent (ToString (req_query !! "q")) = Ok encoded →
  browser st = false →
  match launch (world st) with
  | (Ok _, _) =>
      ∃ mid,
        trace (snd (search_handler (sel:=sel) env req_query st)) =
          trace st ++ Launch :: mid ++ [Close] ∧
        (Close ∉ mid) ∧ (Launch ∉ mid)
  | (Throw error, _) =>
      trace (snd (search_handler (sel:=sel) env req_query st)) =
        trace st ++ [Launch] ∧
      sent (snd (search_handler (sel:=sel) env req_query st)) =
        sent st ++ [error_response env error]
  end.
Proof.
  intros Hq Henc Hb.
  destruct (launch (world st)) as [[[]|error] w] eqn:Hlaunch.
  - destruct (handler_after_launch env req_query encoded st w Hq Henc Hlaunch)
      as [Ht _].
    destruct (emits_scrape_rest env (search_url encoded) (launched st w))
      as (_ & mid & Hmid & Hall).
    exists mid. rewrite Ht, Hmid. simpl.
    split; [by rewrite <- !app_assoc|].
    rewrite Forall_forall in Hall.
    split; intros Hin; apply Hall in Hin;
      by destruct (pipeline_event_inv _ _ _ Hin) as (? & ? & _).
  - by rewrite (handler_launch_throws env req_query encoded st w error
                  Hq Henc Hlaunch Hb).
Qed.

Lemma handler_trace (env : gmap string jsstring)
    (req_query : gmap string query_value) (encoded : jsstring) st :
  truthy (req_query !! "q") = true →
  encodeURIComponent (ToString (req_query !! "q")) = Ok encoded →
  ∃ evs,
    trace (snd (search_handler (sel:=sel) env req_query st)) = trace st ++ evs ∧
    Forall (route_event env (search_url encoded)) evs.
Proof.
  intros Hq Henc.
  destruct (launch (world st)) as [[[]|error] w] eqn:Hlaunch.
  - destruct (handler_after_launch env req_query encoded st w Hq Henc Hlaunch)
      as [Ht _].
    destruct (emits_scrape_rest env (search_url encoded) (launched st w))
      as (_ & mid & Hmid & Hall).
    exists (Launch :: mid ++ [Close]). rewrite Ht, Hmid. simpl.
    split; [by rewrite <- !app_assoc|].
    constructor; [by left|]. apply Forall_app. split.
    + eapply Forall_impl; [exact Hall|]. intros ev Hev. right. by right.
    + constructor; [|constructor]. right. by left.
  - rewrite (search_handler_run env req_query encoded st Hq Henc).
    unfold try_finally, try_catch. fold (search_url encoded).
    rewrite scrape_run, Hlaunch. simpl. unfold release. simpl.
    destruct (browser st).
    + unfold perform. simpl. destruct (close w) as [[[]|err] w2]; simpl;
        exists [Launch; Close]; (split; [by rewrite <- app_assoc|]);
        repeat constructor; by right; left.
    + exists [Launch]. split; [done|]. repeat constructor.
Qed.

(** X12. The only page the route navigates to is the search URL built
    from the encoded query, and in production it never writes the debug
    file. *)
Theorem handler_navigates_only_to_search_url (env : gmap string jsstring)
    (req_query : gmap string query_value) (encoded : jsstring) st :
  truthy (req_query !! "q") = true →
  encodeURIComponent (ToString (req_query !! "q")) = Ok encoded →
  ∃ evs,
    trace (snd (search_handler (sel:=sel) env req_query st)) = trace st ++ evs ∧
    (∀ u, Goto u ∈ evs →
          u = js "https://lista.mercadolivre.com.br/" ++ encoded) ∧
    (env !! "NODE_ENV" = Some (js "production") →
     ∀ n, WriteFileSync n ∉ evs).
Proof.
  intros Hq Henc.
  destruct (handler_trace env req_query encoded st Hq Henc) as (evs & Ht & Hall).
  exists evs. split; [done|]. rewrite Forall_forall in Hall. split.
  - intros u Hin. apply Hall in Hin as [?|[?|Hp]]; [done|done|].
    destruct (pipeline_event_inv _ _ _ Hp) as (_ & _ & Hg & _). by apply Hg.
  - intros Hprod n Hin. apply Hall in Hin as [?|[?|Hp]]; [done|done|].
    destruct (pipeline_event_inv _ _ _ Hp) as (_ & _ & _ & Hw).
    specialize (Hw n eq_refl). unfold not_production in Hw.
    by rewrite bool_decide_eq_true_2 in Hw.
Qed.

Lemma probe_from_ready_has_items (maxAttempts remaining attempt : nat)
    st st' (v : bool) :
  probe_from maxAttempts attempt remaining st = (Ok v, st') →
  v = true ∧
  (0 < length (querySelectorAll ".ui-search-layout__item" (world st')))%nat.
Proof.
  revert attempt st. induction remaining as [|n IH]; intros attempt st; simpl.
  - done.
  - rewrite bind_run.
    destruct (probe_attempt_cases maxAttempts attempt st)
      as (st1 & evs & _ & _ & _ & [Hr|Hr]); rewrite Hr.
    + intros [= <- <-]. split; [done|].
      by eapply probe_attempt_ready_has_items.
    + apply IH.
Qed.

(** X13. The route reads the page content only after the readiness probe
    has returned [true], in a state in which the page holds at least one
    item: when the launch, the navigation or the probe fails, [content] is
    never called. *)
Theorem content_read_only_when_ready (env : gmap string jsstring)
    (req_query : gmap string query_value) (encoded : jsstring) st
    (evs : list event) :
  truthy (req_query !! "q") = true →
  encodeURIComponent (ToString (req_query !! "q")) = Ok encoded →
  trace (snd (search_handler (sel:=sel) env req_query st)) = trace st ++ evs →
  Content ∈ evs →
  ∃ w s1 s2,
    launch (world st) = (Ok (), w) ∧
    open_page_rest (search_url encoded) (launched st w) = (Ok (), s1) ∧
    waitForPageReady default_maxAttempts s1 = (Ok true, s2) ∧
    (0 < length (querySelectorAll ".ui-search-layout__item" (world s2)))%nat.
Proof.
  intros Hq Henc Htrace Hin.
  assert (Hsetup : ∀ l, Forall (setup_event (search_url encoded)) l →
                        Forall (λ ev, ev ≠ Content) l).
  { intros l Hl. eapply Forall_impl; [exact Hl|]. intros ev Hev.
    by destruct (setup_event_inv _ _ Hev) as (_ & _ & ? & _). }
  assert (Hprobe : ∀ l, Forall probe_event l →
                        Forall (λ ev, ev ≠ Content) l).
  { intros l Hl. eapply Forall_impl; [exact Hl|]. intros ev Hev.
    by destruct (probe_event_inv _ Hev) as (_ & _ & ? & _). }
  assert (Hcontra : Forall (λ ev, ev ≠ Content) evs → False).
  { intros Hno. rewrite Forall_forall in Hno. by apply (Hno Content Hin). }
  destruct (launch (world st)) as [[[]|error] w] eqn:Hlaunch.
  - destruct (handler_after_launch env req_query encoded st w Hq Henc Hlaunch)
      as [Ht _].
    rewrite Ht in Htrace. unfold scrape_rest in Htrace.
    rewrite bind_run in Htrace.
    destruct (emits_open_page_rest (search_url encoded) (launched st w))
      as (_ & e1 & Ht1 & He1).
    destruct (open_page_rest (search_url encoded) (launched st w))
      as [[[]|err1] s1] eqn:Hopen; simpl in Ht1.
    + rewrite bind_run in Htrace.
      destruct (emits_waitForPageReady default_maxAttempts s1)
        as (_ & e2 & Ht2 & He2).
      destruct (waitForPageReady default_maxAttempts s1)
        as [[v|err2] s2] eqn:Hready; simpl in Ht2.
      * destruct (probe_from_ready_has_items _ _ _ _ _ _ Hready) as [-> Hitems].
        by exists w, s1, s2.
      * exfalso. apply Hcontra. simpl in Htrace. rewrite Ht2, Ht1 in Htrace.
        rewrite <- !app_assoc in Htrace.
        apply app_inv_head in Htrace. subst evs.
        repeat first [ apply Forall_app_2 | apply Forall_cons_2
                     | apply Forall_nil_2 ]; auto.
    + exfalso. apply Hcontra. simpl in Htrace. rewrite Ht1 in Htrace.
      rewrite <- !app_assoc in Htrace.
      apply app_inv_head in Htrace. subst evs.
      repeat first [ apply Forall_app_2 | apply Forall_cons_2
                   | apply Forall_nil_2 ]; auto.
  - exfalso. apply Hcontra.
    rewrite (search_handler_run env req_query encoded st Hq Henc) in Htrace.
    unfold try_finally, try_catch in Htrace. fold (search_url encoded) in Htrace.
    rewrite scrape_run, Hlaunch in Htrace. simpl in Htrace.
    unfold release in Htrace. simpl in Htrace.
    destruct (browser st).
    + unfold perform in Htrace. simpl in Htrace.
      destruct (close w) as [[[]|err] w2]; simpl in Htrace;
        rewrite <- app_assoc in Htrace; apply app_inv_head in Htrace;
        subst evs; by repeat constructor.
    + simpl in Htrace. apply app_inv_head in Htrace. subst evs.
      by repeat constructor.
Qed.

End RouteExtras.

(** * The further properties run on the samples *)

Lemma normalize_permalink_idempotent_witness :
  normalize_permalink (Some (js "/MLB-1")) =
    Some (js "https://www.mercadolivre.com.br/MLB-1") ∧
  js "https://www.mercadolivre.com.br/MLB-1" ≠ [] ∧
  startsWith (js "http") (js "https://www.mercadolivre.com.br/MLB-1") = true.
Proof.
  assert (Hn : normalize_permalink (Some (js "/MLB-1")) =
               Some (js "https://www.mercadolivre.com.br/MLB-1"))
    by reflexivity.
  assert (Hne : js "https://www.mercadolivre.com.br/MLB-1" ≠ []) by done.
  split; [exact Hn|]. split; [exact Hne|].
  exact (proj2 (normalize_permalink_idempotent (Some (js "/MLB-1"))) _ Hn Hne).
Defined.

Lemma emitted_titles_are_trimmed_witness :
  resolve_fields [sample_item] = Ok sample_fields ∧
  last (f_title sample_fields) = Some 51%N ∧
  isWhiteSpace 51 = false.
Proof.
  assert (Hres : resolve_fields [sample_item] = Ok sample_fields)
    by (vm_compute; reflexivity).
  assert (Hlast : last (f_title sample_fields) = Some 51%N) by reflexivity.
  split; [exact Hres|]. split; [exact Hlast|].
  exact (proj2 (emitted_titles_are_trimmed sample_listing)
           [sample_item] sample_fields 51%N Hres Hlast).
Defined.

Lemma handler_sends_one_response_witness :
  (∃ encoded, encodeURIComponent (ToString (iphone_query !! "q")) = Ok encoded) ∧
  ∃ r,
    sent (snd (search_handler (sel:=list stub) env_development iphone_query
                 (start toy_page))) = [r] ∧
    ((status r = 400 ∧ body r = ErrorBody required_message None) ∨
     (status r = 200 ∧ ∃ ps, body r = ProductsBody ps ∧ Forall valid_record ps) ∨
     (status r = 500 ∧ ∃ d, body r = ErrorBody internal_error_message (Some d))).
Proof.
  assert (Henc : ∃ encoded,
            encodeURIComponent (ToString (iphone_query !! "q")) = Ok encoded)
    by (exists (js "iPhone"); vm_compute; reflexivity).
  split; [exact Henc|].
  exact (handler_sends_one_response (sel:=list stub) env_development
           iphone_query (start toy_page) (or_intror Henc)).
Defined.

Lemma unencodable_query_is_not_answered_witness :
  truthy (surrogate_query !! "q") = true ∧
  @encodeURIComponent strict_builtins (ToString (surrogate_query !! "q"))
    = Throw (JsError (js "URI malformed")) ∧
  @search_handler toy toy_handle (list stub) toy_puppeteer strict_builtins
      canned_cheerio env_development surrogate_query (start toy_page)
    = (Throw (JsError (js "URI malformed")), start toy_page).
Proof.
  assert (Hq : truthy (surrogate_query !! "q") = true)
    by (vm_compute; reflexivity).
  assert (Henc :
    @encodeURIComponent strict_builtins (ToString (surrogate_query !! "q"))
    = Throw (JsError (js "URI malformed"))) by (vm_compute; reflexivity).
  split; [exact Hq|]. split; [exact Henc|].
  exact (@unencodable_query_is_not_answered toy toy_handle (list stub)
           toy_puppeteer strict_builtins canned_cheerio env_development
           surrogate_query (JsError (js "URI malformed")) (start toy_page)
           Hq Henc).
Defined.

Lemma browser_closed_iff_launched_witness :
  truthy (iphone_query !! "q") = true ∧
  encodeURIComponent (ToString (iphone_query !! "q")) = Ok (js "iPhone") ∧
  browser (start toy_page) = false ∧
  ∃ mid,
    trace (snd (search_handler (sel:=list stub) env_development iphone_query
                  (start toy_page))) = Launch :: mid ++ [Close] ∧
    (Close ∉ mid) ∧ (Launch ∉ mid).
Proof.
  assert (Hq : truthy (iphone_query !! "q") = true) by (vm_compute; reflexivity).
  assert (Henc : encodeURIComponent (ToString (iphone_query !! "q"))
                 = Ok (js "iPhone")) by (vm_compute; reflexivity).
  split; [exact Hq|]. split; [exact Henc|]. split; [reflexivity|].
  exact (browser_closed_iff_launched (sel:=list stub) env_development
           iphone_query (js "iPhone") (start toy_page) Hq Henc eq_refl).
Defined.

Lemma handler_navigates_only_to_search_url_witness :
  truthy (iphone_query !! "q") = true ∧
  encodeURIComponent (ToString (iphone_query !! "q")) = Ok (js "iPhone") ∧
  ∃ evs,
    trace (snd (search_handler (sel:=list stub) env_development iphone_query
                  (start toy_page))) = evs ∧
    ∀ u, Goto u ∈ evs → u = iphone_url.
Proof.
  assert (Hq : truthy (iphone_query !! "q") = true) by (vm_compute; reflexivity).
  assert (Henc : encodeURIComponent (ToString (iphone_query !! "q"))
                 = Ok (js "iPhone")) by (vm_compute; reflexivity).
  split; [exact Hq|]. split; [exact Henc|].
  destruct (handler_navigates_only_to_search_url (sel:=list stub)
              env_development iphone_query (js "iPhone") (start toy_page)
              Hq Henc) as (evs & Ht & Hgoto & _).
  exists evs. split; [exact Ht | exact Hgoto].
Defined.

Lemma content_read_only_when_ready_witness :
  truthy (iphone_query !! "q") = true ∧
  encodeURIComponent (ToString (iphone_query !! "q")) = Ok (js "iPhone") ∧
  trace (snd (search_handler (sel:=list stub) env_development iphone_query
                (start page_ready_third))) = [] ++ ready_run_trace ∧
  Content ∈ ready_run_trace ∧
  ∃ w s1 s2,
    launch page_ready_third = (Ok (), w) ∧
    open_page_rest (search_url (js "iPhone"))
      (launched (start page_ready_third) w) = (Ok (), s1) ∧
    waitForPageReady default_maxAttempts s1 = (Ok true, s2) ∧
    (0 < length (querySelectorAll ".ui-search-layout__item" (world s2)))%nat.
Proof.
  assert (Hq : truthy (iphone_query !! "q") = true) by (vm_compute; reflexivity).
  assert (Henc : encodeURIComponent (ToString (iphone_query !! "q"))
                 = Ok (js "iPhone")) by (vm_compute; reflexivity).
  assert (Ht : trace (snd (search_handler (sel:=list stub) env_development
                             iphone_query (start page_ready_third)))
               = [] ++ ready_run_trace) by (vm_compute; reflexivity).
  assert (Hin : Content ∈ ready_run_trace).
  { apply (bool_decide_unpack _). vm_compute. exact I. }
  split; [exact Hq|]. split; [exact Henc|]. split; [exact Ht|].
  split; [exact Hin|].
  exact (content_read_only_when_ready (sel:=list stub) env_development
           iphone_query (js "iPhone") (start page_ready_third)
           ready_run_trace Hq Henc Ht Hin).
Defined.

(** * The earlier variant of the parsing loop *)

Section LegacyFacts.
Context {sel : Type} `{Cheerio sel}.

Lemma legacy_item_callback_spec (index : nat) (e : sel) (st : parse_state) :
  legacy_item_callback index e st =
  match legacy_candidate e with
  | Ok o =>
      (Ok ReturnUndefined,
       {| products := products st ++ option_list o; console := console st |})
  | Throw error => (Throw error, st)
  end.
Proof.
  unfold legacy_item_callback, legacy_candidate.
  rewrite bind_run. unfold lift.
  destruct (find e ".ui-search-item--ad") as [ads|err]; simpl; [|done].
  case_bool_decide; simpl.
  - rewrite app_nil_r. by destruct st.
  - rewrite bind_run. destruct (legacy_fields e) as [f|err]; simpl; [|done].
    destruct (truthy (f_title f) && gt_zero (f_price f) &&
              truthy (f_permalink f) && truthy (f_thumbnail f)); simpl.
    + done.
    + rewrite app_nil_r. by destruct st.
Qed.

Lemma legacy_each_from_ok (els : list sel) (index : nat) (st : parse_state) :
  Forall resolves els →
  each_from legacy_item_callback index els st =
    (Ok (),
     {| products := products st ++ omap legacy_record els;
        console := console st |}).
Proof.
  intros Hall. revert index st.
  induction Hall as [|e els [o Ho] _ IH]; intros index st.
  - simpl. rewrite app_nil_r. by destruct st.
  - simpl. rewrite bind_run, legacy_item_callback_spec, Ho, IH. simpl.
    unfold legacy_record at 2. rewrite Ho.
    rewrite <- app_assoc. by destruct o.
Qed.

Lemma legacy_each_from_throw (xs ys : list sel) (e : sel)
    (error : js_error) (index : nat) (st : parse_state) :
  Forall resolves xs →
  legacy_candidate e = Throw error →
  each_from legacy_item_callback index (xs ++ e :: ys) st =
    (Throw error,
     {| products := products st ++ omap legacy_record xs;
        console := console st |}).
Proof.
  intros Hxs Hthrow. revert index st.
  induction Hxs as [|x xs [o Ho] _ IH]; intros index st.
  - simpl. rewrite bind_run, legacy_item_callback_spec, Hthrow.
    rewrite app_nil_r. by destruct st.
  - simpl. rewrite bind_run, legacy_item_callback_spec, Ho, IH. simpl.
    unfold legacy_record at 2. rewrite Ho.
    rewrite <- app_assoc. by destruct o.
Qed.

(** X14. In the earlier variant of the loop, as long as no node throws,
    the output is the order-preserving filter-map of the nodes; titles are
    not cut and links are not rewritten. *)
Theorem legacy_pass_is_filter_map (items : sel) :
  Forall resolves (elements items) →
  legacy_parse_products items =
    (Ok (), {| products := omap legacy_record (elements items);
               console := [] |}).
Proof.
  intros Hall. unfold legacy_parse_products, each.
  by rewrite (legacy_each_from_ok _ _ _ Hall).
Qed.

(** X15. The earlier variant has no [try] around a node: the first node
    whose resolution throws makes the whole pass throw that error; the
    records of the nodes before it have been pushed, the nodes after it
    are never looked at. *)
Theorem legacy_pass_aborts_on_throw (items : sel) (xs ys : list sel)
    (e : sel) (error : js_error) :
  elements items = xs ++ e :: ys →
  Forall resolves xs →
  legacy_candidate e = Throw error →
  legacy_parse_products items =
    (Throw error, {| products := omap legacy_record xs; console := [] |}).
Proof.
  intros Hitems Hxs Hthrow. unfold legacy_parse_products, each.
  rewrite Hitems. by rewrite (legacy_each_from_throw _ _ _ _ _ _ Hxs Hthrow).
Qed.

End LegacyFacts.

Lemma legacy_pass_is_filter_map_witness :
  Forall resolves (elements [sample_legacy_item; sample_sponsored]) ∧
  legacy_parse_products [sample_legacy_item; sample_sponsored] =
    (Ok (), {| products := [sample_legacy_record]; console := [] |}).
Proof.
  assert (Hall : Forall resolves (elements [sample_legacy_item; sample_sponsored])).
  { apply List.Forall_cons;
      [exists (Some sample_legacy_record); vm_compute; reflexivity|].
    apply List.Forall_cons; [exists None; vm_compute; reflexivity|].
    apply List.Forall_nil. }
  split; [exact Hall|].
  exact (legacy_pass_is_filter_map [sample_legacy_item; sample_sponsored] Hall).
Defined.

Lemma legacy_pass_aborts_on_throw_witness :
  elements [sample_legacy_item; sample_legacy_broken; sample_legacy_item] =
    [[sample_legacy_item]] ++ [sample_legacy_broken] :: [[sample_legacy_item]] ∧
  Forall resolves [[sample_legacy_item]] ∧
  legacy_candidate [sample_legacy_broken] =
    Throw (JsError (js "unsupported selector")) ∧
  legacy_parse_products
      [sample_legacy_item; sample_legacy_broken; sample_legacy_item] =
    (Throw (JsError (js "unsupported selector")),
     {| products := [sample_legacy_record]; console := [] |}).
Proof.
  assert (Hels : elements [sample_legacy_item; sample_legacy_broken;
                           sample_legacy_item] =
                 [[sample_legacy_item]] ++ [sample_legacy_broken]
                   :: [[sample_legacy_item]]) by reflexivity.
  assert (Hxs : Forall resolves [[sample_legacy_item]]).
  { apply List.Forall_cons;
      [exists (Some sample_legacy_record); vm_compute; reflexivity|].
    apply List.Forall_nil. }
  assert (Hthrow : legacy_candidate [sample_legacy_broken] =
                   Throw (JsError (js "unsupported selector")))
    by (vm_compute; reflexivity).
  split; [exact Hels|]. split; [exact Hxs|]. split; [exact Hthrow|].
  exact (legacy_pass_aborts_on_throw _ _ _ _ _ Hels Hxs Hthrow).
Defined.

(** * Fallback chains and the response body *)

Lemma removeAll_digits (it : jsstring) :
  Forall (λ c, isDigit c = true ∨ c = 46%N ∨ c = 44%N) it →
  digits (removeAll 44%N (removeAll 46%N it)).
Proof.
  intros Hall. unfold digits, removeAll. apply Forall_forall. intros c Hc.
  apply list_elem_of_filter in Hc as [H44 Hc].
  apply list_elem_of_filter in Hc as [H46 Hc].
  rewrite Forall_forall in Hall. by destruct (Hall c Hc) as [?|[?|?]].
Qed.

Lemma removeAll_keeps_digit (it : jsstring) (c : N) :
  c ∈ it → isDigit c = true → c ∈ removeAll 44%N (removeAll 46%N it).
Proof.
  intros Hin Hc. unfold removeAll.
  apply list_elem_of_filter. split.
  - intros ->. by vm_compute in Hc.
  - apply list_elem_of_filter. split; [|done]. intros ->. by vm_compute in Hc.
Qed.

(** X16. For an integer-part text made of digits, dots and commas only,
    with at least one digit, and a fractional text of digits, the price is
    the Number value of the decimal formed by the digits alone: where the
    grouping marks stand does not matter. *)
Theorem grouped_price_is_decimal (it cents : jsstring) (c : N) :
  Forall (λ c, isDigit c = true ∨ c = 46%N ∨ c = 44%N) it →
  c ∈ it → isDigit c = true →
  digits cents →
  compose_price (removeAll 44%N (removeAll 46%N it)) cents =
    Number_of_Q false
      (decimalMV (digitsValue (removeAll 44%N (removeAll 46%N it) ++ cents))
         (length cents) 0).
Proof.
  intros Hall Hin Hc Hcents. apply compose_price_digits; [|by apply removeAll_digits|done].
  intros Hnil. pose proof (removeAll_keeps_digit it c Hin Hc) as Hkept.
  rewrite Hnil in Hkept. by apply not_elem_of_nil in Hkept.
Qed.

Lemma grouped_price_is_decimal_witness :
  Forall (λ c, isDigit c = true ∨ c = 46%N ∨ c = 44%N) (js "1.234,567") ∧
  49%N ∈ js "1.234,567" ∧ isDigit 49 = true ∧ digits (js "89") ∧
  compose_price (removeAll 44%N (removeAll 46%N (js "1.234,567"))) (js "89") =
    Number_of_Q false (123456789 # 100).
Proof.
  assert (Hall : Forall (λ c, isDigit c = true ∨ c = 46%N ∨ c = 44%N)
                   (js "1.234,567")).
  { repeat first [ apply List.Forall_nil
                 | apply List.Forall_cons;
                   [first [by left | right; by left | right; by right]|] ]. }
  assert (Hin : 49%N ∈ js "1.234,567") by (by left).
  assert (Hc : isDigit 49 = true) by reflexivity.
  assert (Hcents : digits (js "89"))
    by (repeat (apply List.Forall_cons; [reflexivity|]); apply List.Forall_nil).
  split; [exact Hall|]. split; [exact Hin|]. split; [exact Hc|].
  split; [exact Hcents|].
  rewrite (grouped_price_is_decimal (js "1.234,567") (js "89") 49 Hall Hin Hc Hcents).
  apply Number_of_Q_proper. by vm_compute.
Defined.

Section FallbackFacts.
Context {sel : Type} `{Cheerio sel}.

Lemma js_or_truthy {A} `{Truthy A} (a b : result A) (x : A) :
  a = Ok x → truthy x = true → a ||| b = Ok x.
Proof. intros -> Hx. unfold js_or. by rewrite Hx. Qed.

Lemma js_or_falsy {A} `{Truthy A} (a b : result A) (x : A) :
  a = Ok x → truthy x = false → a ||| b = b.
Proof. intros -> Hx. unfold js_or. by rewrite Hx. Qed.


(** X18. The thumbnail chain prefers the deferred-load attribute: a
    non-empty [data-src] of the result image is the thumbnail even when
    the image has a [src]; with no [data-src], or an empty one, a
    non-empty [src] of the result image is taken. *)
Theorem thumbnail_prefers_data_src (e : sel) :
  (∀ d, found_attr e "img.ui-search-result-image__element" "data-src"
          = Ok (Some d) → d ≠ [] →
        thumbnail_of e = Ok (Some d)) ∧
  (∀ o s, found_attr e "img.ui-search-result-image__element" "data-src"
            = Ok o → truthy o = false →
          found_attr e "img.ui-search-result-image__element" "src"
            = Ok (Some s) → s ≠ [] →
          thumbnail_of e = Ok (Some s)).
Proof.
  unfold found_attr, thumbnail_of. split.
  - intros d Hd Hne. rewrite Hd.
    rewrite !(js_or_truthy (Ok (Some d)) _ (Some d)); try done;
      by destruct d.
  - intros o s Ho Hfalsy Hs Hne. rewrite Ho, Hs.
    rewrite (js_or_falsy (Ok o) _ o) by done.
    rewrite !(js_or_truthy (Ok (Some s)) _ (Some s)); try done;
      by destruct s.
Qed.

End FallbackFacts.


Lemma thumbnail_prefers_data_src_witness :
  found_attr [sample_fallbacks] "img.ui-search-result-image__element" "data-src"
    = Ok (Some (js "https://img/5.webp")) ∧
  js "https://img/5.webp" ≠ [] ∧
  thumbnail_of [sample_fallbacks] = Ok (Some (js "https://img/5.webp")).
Proof.
  assert (Hd : found_attr [sample_fallbacks]
                 "img.ui-search-result-image__element" "data-src"
               = Ok (Some (js "https://img/5.webp"))) by reflexivity.
  assert (Hne : js "https://img/5.webp" ≠ []) by done.
  split; [exact Hd|]. split; [exact Hne|].
  exact (proj1 (thumbnail_prefers_data_src [sample_fallbacks]) _ Hd Hne).
Defined.

Section ResponseFacts.
Context {W H sel : Type} `{Puppeteer W H} `{Builtins} `{Cheerio sel}.
Implicit Types st : request_state W.

(** X19. When the part of the route after the probe returns, the body of
    its one response is exactly the filter-map of the item nodes of the
    page content as loaded by cheerio, in document order: the empty array
    when no node gives a record. *)
Theorem response_is_parse_of_content (env : gmap string jsstring) st st' :
  extract_and_respond (sel:=sel) env st = (Ok (), st') →
  ∃ html doc items,
    fst (content (if not_production env
                  then setTimeout 3000 (world st) else world st)) = Ok html ∧
    load html = Ok doc ∧
    find doc ".ui-search-layout__item" = Ok items ∧
    sent st' =
      sent st ++
      [{| status := 200;
          body := ProductsBody (omap candidate (elements items)) |}].
Proof.
  unfold extract_and_respond.
  set (w0 := if not_production env then setTimeout 3000 (world st) else world st).
  assert (Hpause : ∃ st0,
    (if not_production env then sleep 3000 else mret ()) st = (Ok (), st0) ∧
    world st0 = w0 ∧ sent st0 = sent st).
  { unfold w0. destruct (not_production env); eexists; split; try reflexivity;
      done. }
  destruct Hpause as (st0 & Hp & Hw0 & Hs0).
  rewrite bind_run, Hp, bind_run. unfold perform. rewrite Hw0.
  destruct (content w0) as [[html|err] w1]; [|done]. simpl.
  rewrite bind_run. unfold lift.
  destruct (load html) as [doc|err] eqn:Hload; [|done].
  rewrite bind_run.
  destruct (find doc ".ui-search-layout__item") as [items|err] eqn:Hfind; [|done].
  destruct (parse_products_candidate items) as [Hok Hprod].
  destruct (parse_products items) as [r parsed]. simpl in Hok, Hprod.
  injection Hok as ->. rewrite bind_run.
  case_bool_decide as Hlen.
  - intros [= <-]. exists html, doc, items. simpl. by rewrite Hprod, Hs0.
  - assert (Hnil : omap candidate (elements items) = []).
    { rewrite <- Hprod. destruct (products parsed); [done|]. simpl in Hlen. lia. }
    rewrite bind_run.
    destruct (not_production env).
    + unfold perform. simpl.
      destruct (writeFileSync "debug_page.html" html w1) as [[[]|err] w2];
        [|done].
      intros [= <-]. exists html, doc, items. simpl. by rewrite Hnil, Hs0.
    + intros [= <-]. exists html, doc, items. simpl. by rewrite Hnil, Hs0.
Qed.

End ResponseFacts.

Lemma response_is_parse_of_content_witness :
  find (Cheerio:=listing_cheerio) listing_doc ".ui-search-layout__item"
    = Ok sample_listing ∧
  fst (extract_and_respond (H2:=listing_cheerio) env_development
         (start toy_page)) = Ok () ∧
  sent (snd (extract_and_respond (H2:=listing_cheerio) env_development
               (start toy_page))) =
    [{| status := 200;
        body := ProductsBody [record_of sample_fields;
                              sample_no_cents_record] |}].
Proof.
  assert (Hitems : find (Cheerio:=listing_cheerio) listing_doc
                     ".ui-search-layout__item" = Ok sample_listing)
    by reflexivity.
  assert (Hrun :
    extract_and_respond (H2:=listing_cheerio) env_development (start toy_page) =
    (Ok (), snd (extract_and_respond (H2:=listing_cheerio) env_development
                   (start toy_page))))
    by (vm_compute; reflexivity).
  split; [exact Hitems|]. split; [by rewrite Hrun|].
  destruct (response_is_parse_of_content (H2:=listing_cheerio) env_development
              (start toy_page) _ Hrun)
    as (html & doc & items & _ & Hload & Hfind & ->).
  injection Hload as <-. rewrite Hitems in Hfind. injection Hfind as <-.
  vm_compute. reflexivity.
Defined.
